(** * SubjectiveByBitP2PDataSource: a shallow embedding and its properties

    The repository holds one Python file with two pieces of glue code:
    - [get_bybit_p2p_opportunities], a query of a public HTTP API, and
    - the class [SubjectiveByBitP2PDataSource], whose [fetch] lists
      repositories and clones each one into a target directory.

    Both talk to the outside (HTTP, the file system, [git], the clock, a
    logger, a progress callback).  The outside is an interface here: every
    answer it can give according to the Python library documentation is an
    input of the model, and every call that changes it or is observable is
    recorded as an event. *)

From Stdlib Require Import ZArith QArith String Ascii List Lia DecimalString.
From stdpp Require Import gmap strings list.

Local Open Scope Z_scope.
Local Open Scope string_scope.
Local Open Scope list_scope.

(** ** Python values used by the code *)

(** [str(n)] for an [int]. *)
Definition str_of_int (n : Z) : string := NilZero.string_of_int (Z.to_int n).

(** Exceptions that the library calls of the source can raise.  [OSError]
    stands for the class and its subclasses ([FileNotFoundError],
    [NotADirectoryError], [PermissionError], ...), told apart by [kind];
    [RequestException] likewise for the exceptions of [requests];
    [AttributeError] is "'type_name' object has no attribute 'attribute'". *)
Inductive exn : Type :=
| OSError (kind : string) (filename : string)
| CalledProcessError (returncode : Z) (cmd : list string)
                     (stdout stderr : list Byte.byte)
| UnicodeDecodeError (object : list Byte.byte)
| RequestException (cls : string) (msg : string)
| AttributeError (type_name attribute : string).

Inductive result (A : Type) : Type :=
| Ok (a : A)
| Raise (e : exn).
Arguments Ok {A} a.
Arguments Raise {A} e.

(** *** [bytes.decode()]

    A Python [str] is represented by its UTF-8 encoding, so a successful
    [decode()] keeps the bytes and a failing one raises.  The default codec
    is strict UTF-8: no overlong forms, no surrogates, nothing above
    U+10FFFF. *)
Definition in_range (lo hi : N) (b : Byte.byte) : bool :=
  (N.leb lo (Byte.to_N b) && N.leb (Byte.to_N b) hi)%bool.

Definition is_cont : Byte.byte -> bool := in_range 0x80 0xBF.

Fixpoint utf8_valid (bs : list Byte.byte) : bool :=
  match bs with
  | [] => true
  | b0 :: t0 =>
    if in_range 0x00 0x7F b0 then utf8_valid t0
    else match t0 with
    | [] => false
    | b1 :: t1 =>
      if in_range 0xC2 0xDF b0 then is_cont b1 && utf8_valid t1
      else match t1 with
      | [] => false
      | b2 :: t2 =>
        if in_range 0xE0 0xE0 b0
        then in_range 0xA0 0xBF b1 && is_cont b2 && utf8_valid t2
        else if in_range 0xED 0xED b0
        then in_range 0x80 0x9F b1 && is_cont b2 && utf8_valid t2
        else if in_range 0xE1 0xEF b0
        then is_cont b1 && is_cont b2 && utf8_valid t2
        else match t2 with
        | [] => false
        | b3 :: t3 =>
          if in_range 0xF0 0xF0 b0
          then in_range 0x90 0xBF b1 && is_cont b2 && is_cont b3 && utf8_valid t3
          else if in_range 0xF1 0xF3 b0
          then is_cont b1 && is_cont b2 && is_cont b3 && utf8_valid t3
          else if in_range 0xF4 0xF4 b0
          then in_range 0x80 0x8F b1 && is_cont b2 && is_cont b3 && utf8_valid t3
          else false
        end
      end
    end
  end.

Definition decode (bs : list Byte.byte) : result string :=
  if utf8_valid bs then Ok (string_of_list_byte bs) else Raise (UnicodeDecodeError bs).

(** *** [os.path.join(a, b)] (posixpath) *)
Definition startswith_sep (b : string) : bool :=
  match b with String "/" _ => true | _ => false end.

Fixpoint endswith_sep (a : string) : bool :=
  match a with
  | EmptyString => false
  | String c EmptyString => if Ascii.eqb c "/" then true else false
  | String _ r => endswith_sep r
  end.

Definition os_path_join (a b : string) : string :=
  if startswith_sep b then b
  else if (match a with EmptyString => true | _ => false end) || endswith_sep a
       then a +:+ b
       else a +:+ "/" +:+ b.

(** ** The outside world *)

(** What [subprocess.run(args, stdout=PIPE, stderr=PIPE)] can come back
    with: the child ran and exited, or it could not be started (an
    [OSError], for instance when there is no [git] on the path). *)
Inductive run_outcome : Type :=
| Exited (returncode : Z) (stdout stderr : list Byte.byte)
| NotStarted (kind : string) (filename : string).

(** The operating system as [fetch] uses it.  [W] is the state of the
    outside (file system, remote server, clock); an instance decides what
    every call answers and how it changes that state. *)
Class OS (W : Type) : Type := {
  os_path_exists : W -> string -> bool;
  os_listdir : W -> string -> result (list string);
  os_makedirs : W -> string -> result unit * W;
  subprocess_run : W -> list string -> run_outcome * W;
  (** [time.time()]: seconds as a rational; the rounding of Python's floats
      is left out, and nothing below depends on the value of a time. *)
  time_time : W -> Q
}.

(** Observable actions, in the order they happen. *)
Inductive event : Type :=
| Log (msg : string) (level : option string)
| Makedirs (path : string)
| Run (args : list string)
| Progress (name : string) (total processed : Z) (est_time : Q).

(** ** The data source object *)

Record instance : Type := {
  name : string;
  params : gmap string string;
  progress_callback : bool;
  _total_items : Z;
  _processed_items : Z;
  _total_processing_time : Q;
  _fetch_completed : bool
}.

(** [__init__]: the base initialiser (of another package) has produced
    [base]; the four counters are then set. *)
Definition __init__ (base : instance) : instance :=
  {| name := name base; params := params base;
     progress_callback := progress_callback base;
     _total_items := 0;
     _processed_items := 0;
     _total_processing_time := 0%Q;
     _fetch_completed := false |}.

(** [_get_repositories]: the placeholder listing of the source. *)
Definition _get_repositories (self : instance) : list string :=
  ["Repo1"; "Repo2"; "Repo3"].

(** Modelled from the spec: the accessors of the base class
    [SubjectiveDataSource], which is not part of the source tree.  The spec
    says that the callback receives the task name, the total item count, the
    processed item count and an estimate derived from the average time per
    item so far multiplied by the number of remaining items. *)
Definition get_name (self : instance) : string := name self.
Definition total_to_process (self : instance) : Z := _total_items self.
Definition total_processed (self : instance) : Z := _processed_items self.
Definition estimated_remaining_time (self : instance) : Q :=
  ((_total_processing_time self / inject_Z (_processed_items self))
   * inject_Z (_total_items self - _processed_items self))%Q.

Definition set_total_items (v : Z) (o : instance) : instance :=
  {| name := name o; params := params o;
     progress_callback := progress_callback o;
     _total_items := v;
     _processed_items := _processed_items o;
     _total_processing_time := _total_processing_time o;
     _fetch_completed := _fetch_completed o |}.

Definition set_processed_items (v : Z) (o : instance) : instance :=
  {| name := name o; params := params o;
     progress_callback := progress_callback o;
     _total_items := _total_items o;
     _processed_items := v;
     _total_processing_time := _total_processing_time o;
     _fetch_completed := _fetch_completed o |}.

Definition set_total_processing_time (v : Q) (o : instance) : instance :=
  {| name := name o; params := params o;
     progress_callback := progress_callback o;
     _total_items := _total_items o;
     _processed_items := _processed_items o;
     _total_processing_time := v;
     _fetch_completed := _fetch_completed o |}.

Definition set_fetch_completed (v : bool) (o : instance) : instance :=
  {| name := name o; params := params o;
     progress_callback := progress_callback o;
     _total_items := _total_items o;
     _processed_items := _processed_items o;
     _total_processing_time := _total_processing_time o;
     _fetch_completed := v |}.

Definition set_params (p : gmap string string) (o : instance) : instance :=
  {| name := name o; params := p;
     progress_callback := progress_callback o;
     _total_items := _total_items o;
     _processed_items := _processed_items o;
     _total_processing_time := _total_processing_time o;
     _fetch_completed := _fetch_completed o |}.

(** ** Statements of the method bodies: state, exceptions, events *)

Declare Scope py_scope.
Delimit Scope py_scope with py.

Module Py.
Section Monad.
Context {W : Type}.

Record state : Type := { self : instance; world : W }.

(** Running a statement from a state: how it ended, the state it left
    (also when it raised) and what it did on the way. *)
Record outcome (A : Type) : Type :=
    { res : result A; final : state; emitted : list event }.
Arguments res {A} _.
Arguments final {A} _.
Arguments emitted {A} _.

Definition M (A : Type) : Type := state -> outcome A.

Definition ret {A} (a : A) : M A :=
    fun s => {| res := Ok a; final := s; emitted := [] |}.

Definition raise {A} (e : exn) : M A :=
    fun s => {| res := Raise e; final := s; emitted := [] |}.

(** [o], after [evs] had already happened. *)
Definition after {A} (evs : list event) (o : outcome A) : outcome A :=
    {| res := res o; final := final o; emitted := evs ++ emitted o |}.

Definition bind {A B} (m : M A) (k : A -> M B) : M B :=
    fun s =>
      let o := m s in
      match res o with
      | Ok a => after (emitted o) (k a (final o))
      | Raise e => {| res := Raise e; final := final o; emitted := emitted o |}
      end.

(** [try: body  except <class matched by handler> as e: handler e]. *)
Definition try_except {A} (body : M A) (handler : exn -> option (M A)) : M A :=
    fun s =>
      let o := body s in
      match res o with
      | Ok _ => o
      | Raise e =>
        match handler e with
        | Some h => after (emitted o) (h (final o))
        | None => o
        end
      end.

(** [for x in l: body x]. *)
Fixpoint for_each {A} (l : list A) (body : A -> M unit) : M unit :=
    match l with
    | [] => ret tt
    | x :: l' => bind (body x) (fun _ => for_each l' body)
    end.

Definition emit (e : event) : M unit :=
    fun s => {| res := Ok tt; final := s; emitted := [e] |}.

Definition get_self : M instance :=
    fun s => {| res := Ok (self s); final := s; emitted := [] |}.

Definition modify_self (f : instance -> instance) : M unit :=
    fun s => {| res := Ok tt;
                final := {| self := f (self s); world := world s |};
                emitted := [] |}.

Definition lift {A} (r : result A) : M A :=
    match r with Ok a => ret a | Raise e => raise e end.
End Monad.
Arguments state : clear implicits.
Arguments outcome : clear implicits.
Arguments M : clear implicits.
Arguments res {W A} _.
Arguments final {W A} _.
Arguments emitted {W A} _.
End Py.
Import Py.

Notation "x <- m ;; k" := (bind m (fun x => k))
  (at level 100, m at next level, right associativity) : py_scope.
Notation "m ;; k" := (bind m (fun _ => k))
  (at level 100, right associativity) : py_scope.

(** ** [SubjectiveByBitP2PDataSource.fetch] *)

Module DataSource.
Section Fetch.
Context {W : Type} {os : OS W}.

(** The listing method.  The class defines [_get_repositories]; a
    subclass or a test double may answer otherwise, so [fetch] is stated
    for any listing and instantiated with the source's own below. *)
Variable get_repositories : instance -> list string.

(** [self.params.get(key, dflt)] *)
Definition params_get (key dflt : string) : M W string :=
    (o <- get_self ;; ret (default dflt (params o !! key)))%py.

(** [BBLogger.log(msg)] and [BBLogger.log(msg, level=...)] *)
Definition BBLogger_log (msg : string) (level : option string) : M W unit :=
    emit (Log msg level).

Definition time_time_ : M W Q :=
    fun s => ret (time_time (world s)) s.

Definition os_path_exists_ (path : string) : M W bool :=
    fun s => ret (os_path_exists (world s) path) s.

Definition os_listdir_ (path : string) : M W (list string) :=
    fun s => lift (os_listdir (world s) path) s.

Definition os_makedirs_ (path : string) : M W unit :=
    fun s =>
      let (r, w') := os_makedirs (world s) path in
      {| res := r; final := {| self := self s; world := w' |};
         emitted := [Makedirs path] |}.

(** [subprocess.run(args, check=True, stdout=PIPE, stderr=PIPE)]: with
    [check=True] a non-zero exit status raises [CalledProcessError]. *)
Definition subprocess_run_check (args : list string) : M W unit :=
    fun s =>
      let (r, w') := subprocess_run (world s) args in
      {| res := match r with
                | Exited rc out err =>
                  if Z.eqb rc 0 then Ok tt
                  else Raise (CalledProcessError rc args out err)
                | NotStarted kind filename => Raise (OSError kind filename)
                end;
         final := {| self := self s; world := w' |};
         emitted := [Run args] |}.

Definition clone_url_of (region repo_name : string) : string :=
    "https://git-codecommit." +:+ region +:+ ".amazonaws.com/v1/repos/" +:+ repo_name.

Definition truthy (l : list string) : bool :=
    match l with [] => false | _ :: _ => true end.

(** The body of [for repo in repos:]. *)
Definition fetch_item (region target_directory repo : string) : M W unit :=
    (step_start <- time_time_ ;;
     let repo_name := repo in
     let clone_url := clone_url_of region repo_name in
     let dest_path := os_path_join target_directory repo_name in
     ex <- os_path_exists_ dest_path ;;
     present <- (if ex : bool
                 then entries <- os_listdir_ dest_path ;; ret (truthy entries)
                 else ret false) ;;
     (if present : bool
      then BBLogger_log ("Repository " +:+ repo_name +:+ " already exists. Skipping clone.") None
      else
        try_except
          (BBLogger_log ("Cloning repository " +:+ repo_name +:+ " from " +:+ clone_url +:+ " ...") None ;;
           subprocess_run_check ["git"; "clone"; clone_url; dest_path])
          (fun e =>
             match e with
             | CalledProcessError _ _ _ stderr =>
               Some (text <- lift (decode stderr) ;;
                     BBLogger_log ("Error cloning " +:+ repo_name +:+ ": " +:+ text)
                                  (Some "error"))
             | _ => None
             end)) ;;
     now <- time_time_ ;;
     let elapsed := (now - step_start)%Q in
     modify_self (fun o => set_total_processing_time (_total_processing_time o + elapsed)%Q o) ;;
     modify_self (fun o => set_processed_items (_processed_items o + 1) o) ;;
     o <- get_self ;;
     if progress_callback o
     then
       let est_time := estimated_remaining_time o in
       emit (Progress (get_name o) (total_to_process o) (total_processed o) est_time)
     else ret tt)%py.

Definition fetch : M W unit :=
    (start_time <- time_time_ ;;
     region <- params_get "region" "" ;;
     target_directory <- params_get "target_directory" "" ;;
     access_key <- params_get "access_key" "" ;;
     secret_key <- params_get "secret_key" "" ;;
     BBLogger_log ("Starting AWS CodeCommit fetch for region '" +:+ region
                   +:+ "' into '" +:+ target_directory +:+ "'.") None ;;
     ex <- os_path_exists_ target_directory ;;
     (if negb ex
      then os_makedirs_ target_directory ;;
           BBLogger_log ("Created directory " +:+ target_directory) None
      else ret tt) ;;
     o <- get_self ;;
     let repos := get_repositories o in
     modify_self (set_total_items (Z.of_nat (length repos))) ;;
     o <- get_self ;;
     BBLogger_log ("Found " +:+ str_of_int (_total_items o) +:+ " repositories.") None ;;
     for_each repos (fetch_item region target_directory) ;;
     modify_self (set_fetch_completed true) ;;
     BBLogger_log "AWS CodeCommit fetch process completed." None)%py.

  (** *** What one run of the loop body can do

      The parameters as [fetch] reads them, and the outcomes of one
      iteration, one constructor per way through the body. *)

Definition region_of (s : state W) : string :=
    default "" (params (self s) !! "region").

Definition target_directory_of (s : state W) : string :=
    default "" (params (self s) !! "target_directory").

(** The two counter updates at the end of an iteration. *)
Definition bump (elapsed : Q) (o : instance) : instance :=
    set_processed_items (_processed_items o + 1)
      (set_total_processing_time (_total_processing_time o + elapsed)%Q o).

Definition callback_events (o : instance) : list event :=
    if progress_callback o
    then [Progress (get_name o) (total_to_process o) (total_processed o)
                   (estimated_remaining_time o)]
    else [].

Definition item_done (s : state W) (w' : W) (evs : list event) : outcome W unit :=
    let o' := bump (time_time w' - time_time (world s))%Q (self s) in
    {| res := Ok tt; final := {| self := o'; world := w' |};
       emitted := evs ++ callback_events o' |}.

Definition item_raised (s : state W) (w' : W) (e : exn) (evs : list event)
    : outcome W unit :=
    {| res := Raise e; final := {| self := self s; world := w' |}; emitted := evs |}.

Definition skip_log (repo : string) : event :=
    Log ("Repository " +:+ repo +:+ " already exists. Skipping clone.") None.

Definition cloning_log (region repo : string) : event :=
    Log ("Cloning repository " +:+ repo +:+ " from " +:+ clone_url_of region repo +:+ " ...") None.

Definition error_log (repo text : string) : event :=
    Log ("Error cloning " +:+ repo +:+ ": " +:+ text) (Some "error").

Definition clone_args (region target_directory repo : string) : list string :=
    ["git"; "clone"; clone_url_of region repo; os_path_join target_directory repo].

(** The destination is there and lists at least one entry. *)
Definition present (w : W) (dest : string) : bool :=
    os_path_exists w dest
    && match os_listdir w dest with Ok (_ :: _) => true | _ => false end.

(** The destination is missing, or is an empty directory. *)
Definition missing_or_empty (w : W) (dest : string) : bool :=
    negb (os_path_exists w dest)
    || match os_listdir w dest with Ok [] => true | _ => false end.

Inductive item_run (region target_directory repo : string) (s : state W)
    : outcome W unit -> Prop :=
  | run_skip :
      present (world s) (os_path_join target_directory repo) = true ->
      item_run region target_directory repo s
        (item_done s (world s) [skip_log repo])
  | run_unlistable e :
      os_path_exists (world s) (os_path_join target_directory repo) = true ->
      os_listdir (world s) (os_path_join target_directory repo) = Raise e ->
      item_run region target_directory repo s
        (item_raised s (world s) e [])
  | run_cloned out err w' :
      missing_or_empty (world s) (os_path_join target_directory repo) = true ->
      subprocess_run (world s) (clone_args region target_directory repo)
        = (Exited 0 out err, w') ->
      item_run region target_directory repo s
        (item_done s w' [cloning_log region repo;
                         Run (clone_args region target_directory repo)])
  | run_failed rc out err text w' :
      missing_or_empty (world s) (os_path_join target_directory repo) = true ->
      subprocess_run (world s) (clone_args region target_directory repo)
        = (Exited rc out err, w') ->
      rc ≠ 0 ->
      decode err = Ok text ->
      item_run region target_directory repo s
        (item_done s w' [cloning_log region repo;
                         Run (clone_args region target_directory repo);
                         error_log repo text])
  | run_failed_undecodable rc out err e w' :
      missing_or_empty (world s) (os_path_join target_directory repo) = true ->
      subprocess_run (world s) (clone_args region target_directory repo)
        = (Exited rc out err, w') ->
      rc ≠ 0 ->
      decode err = Raise e ->
      item_run region target_directory repo s
        (item_raised s w' e [cloning_log region repo;
                             Run (clone_args region target_directory repo)])
  | run_not_started kind filename w' :
      missing_or_empty (world s) (os_path_join target_directory repo) = true ->
      subprocess_run (world s) (clone_args region target_directory repo)
        = (NotStarted kind filename, w') ->
      item_run region target_directory repo s
        (item_raised s w' (OSError kind filename)
           [cloning_log region repo;
            Run (clone_args region target_directory repo)]).

  (** *** The phases of [fetch] *)

Definition start_log (s : state W) : event :=
    Log ("Starting AWS CodeCommit fetch for region '" +:+ region_of s
         +:+ "' into '" +:+ target_directory_of s +:+ "'.") None.

Definition created_log (s : state W) : event :=
    Log ("Created directory " +:+ target_directory_of s) None.

Definition found_log (n : Z) : event :=
    Log ("Found " +:+ str_of_int n +:+ " repositories.") None.

Definition completed_log : event :=
    Log "AWS CodeCommit fetch process completed." None.

(** The state in which the loop starts, once the outside is [w']. *)
Definition loop_start (s : state W) (w' : W) : state W :=
    {| self := set_total_items (Z.of_nat (length (get_repositories (self s)))) (self s);
       world := w' |}.

(** The loop itself, from that state. *)
Definition loop (s : state W) (w' : W) : outcome W unit :=
    for_each (get_repositories (self s))
             (fetch_item (region_of s) (target_directory_of s))
             (loop_start s w').

(** Everything after the directory check: listing, loop, completion. *)
Definition sync_from (s : state W) (w' : W) (pre : list event) : outcome W unit :=
    let n := Z.of_nat (length (get_repositories (self s))) in
    let o := loop s w' in
    match res o with
    | Ok _ =>
      {| res := Ok tt;
         final := {| self := set_fetch_completed true (self (final o));
                     world := world (final o) |};
         emitted := pre ++ [found_log n] ++ emitted o ++ [completed_log] |}
    | Raise e =>
      {| res := Raise e; final := final o;
         emitted := pre ++ [found_log n] ++ emitted o |}
    end.

(** Selecting events. *)
Definition runs (evs : list event) : list (list string) :=
    omap (fun e => match e with Run args => Some args | _ => None end) evs.

Definition created_dirs (evs : list event) : list string :=
    omap (fun e => match e with Makedirs p => Some p | _ => None end) evs.

Definition logged (evs : list event) : list event :=
    omap (fun e => match e with Log _ _ => Some e | _ => None end) evs.

Definition progress_calls (evs : list event) : list (string * Z * Z * Q) :=
    omap (fun e => match e with
                   | Progress n t p est => Some (n, t, p, est)
                   | _ => None
                   end) evs.




(** The same object and outside, with another parameter dictionary. *)
Definition with_params (p : gmap string string) (s : state W) : state W :=
    {| self := set_params p (self s); world := world s |}.

Definition relabel {A} (p : gmap string string) (o : outcome W A) : outcome W A :=
    {| res := res o; final := with_params p (final o); emitted := emitted o |}.

(** [k] calls of [fetch] in a row on the same object, as long as none
    raises. *)
Fixpoint fetch_times (k : nat) (s : state W) : outcome W unit :=
    match k with
    | O => ret tt s
    | S k' =>
      let o := fetch_times k' s in
      match res o with
      | Ok _ => after (emitted o) (fetch (final o))
      | Raise _ => o
      end
    end.
End Fetch.
End DataSource.

(** ** [get_bybit_p2p_opportunities] *)

Module Bybit.
(** A value of the [params] dictionary of the request. *)
Inductive param : Type :=
| PStr (s : string)
| PInt (n : Z).

Record request : Type := {
  url : string;
  query : list (string * param)
}.

(** [str.upper()], on the ASCII letters. *)
Definition upper_ascii (c : ascii) : ascii :=
    let n := N_of_ascii c in
    if (N.leb 97 n && N.leb n 122)%bool then ascii_of_N (n - 32) else c.

Fixpoint upper (s : string) : string :=
    match s with
    | EmptyString => EmptyString
    | String c r => String (upper_ascii c) (upper r)
    end.

(** What [response.json()] builds: any JSON document.  An object keeps
    its pairs in the order of the text; Python's [dict] holds the last
    value given for a key. *)
#[warnings="-register-all"]
Inductive json : Type :=
| JNull
| JBool (b : bool)
| JInt (n : Z)
| JFloat (q : Q)
| JStr (s : string)
| JArr (elements : list json)
| JObj (fields : list (string * json)).

Fixpoint dict_lookup (key : string) (fields : list (string * json)) : option json :=
  match fields with
  | [] => None
  | (k, v) :: rest =>
    match dict_lookup key rest with
    | Some v' => Some v'
    | None => if String.eqb k key then Some v else None
    end
  end.

Definition type_name (v : json) : string :=
  match v with
  | JNull => "NoneType"
  | JBool _ => "bool"
  | JInt _ => "int"
  | JFloat _ => "float"
  | JStr _ => "str"
  | JArr _ => "list"
  | JObj _ => "dict"
  end.

(** [v.get(key, dflt)]: only a [dict] has the method. *)
Definition py_get (v : json) (key : string) (dflt : json) : result json :=
  match v with
  | JObj fields => Ok (default dflt (dict_lookup key fields))
  | _ => Raise (AttributeError (type_name v) "get")
  end.

(** [v == 0] *)
Definition equals_zero (v : json) : bool :=
  match v with
  | JInt n => Z.eqb n 0
  | JFloat q => Qeq_bool q 0
  | JBool b => negb b
  | _ => false
  end.

Section Api.
(** [str(v)] for a float, a list or a dict is left open. *)
Variable repr_other : json -> string.

(** [str(v)], as an f-string formats a value. *)
Definition py_str (v : json) : string :=
  match v with
  | JNull => "None"
  | JBool true => "True"
  | JBool false => "False"
  | JInt n => str_of_int n
  | JStr s => s
  | _ => repr_other v
  end.

(** The body of a response: JSON, or something [json()] rejects with the
    given message. *)
Inductive payload : Type :=
| NotJson (msg : string)
| Json (v : json).

Record response : Type := {
  status_code : Z;
  reason : string;
  response_url : string;
  body : payload
}.

(** What [requests.get] comes back with: a response, or one of the
    exceptions of the library, all of class [RequestException]. *)
Inductive http_outcome : Type :=
| Failed (cls msg : string)
| Responded (r : response).

Definition requests_get (net : request -> http_outcome) (rq : request)
  : result response :=
  match net rq with
  | Failed cls msg => Raise (RequestException cls msg)
  | Responded r => Ok r
  end.

(** [response.raise_for_status()] *)
Definition raise_for_status (r : response) : result unit :=
  if (Z.leb 400 (status_code r) && Z.ltb (status_code r) 500)%bool
  then Raise (RequestException "HTTPError"
                (str_of_int (status_code r) +:+ " Client Error: " +:+ reason r
                 +:+ " for url: " +:+ response_url r))
  else if (Z.leb 500 (status_code r) && Z.ltb (status_code r) 600)%bool
  then Raise (RequestException "HTTPError"
                (str_of_int (status_code r) +:+ " Server Error: " +:+ reason r
                 +:+ " for url: " +:+ response_url r))
  else Ok tt.

(** [response.json()]: [requests.exceptions.JSONDecodeError] is a
    [RequestException] (requests 2.27 and later). *)
Definition response_json (r : response) : result json :=
  match body r with
  | Json v => Ok v
  | NotJson msg => Raise (RequestException "JSONDecodeError" msg)
  end.

Definition the_request (base_currency trade_type fiat_currency : string) : request :=
  {| url := "https://api2.bybit.com/spot/api/otc/item/list";
     query := [("userId", PStr ""); ("tokenId", PStr base_currency);
               ("currencyId", PStr fiat_currency); ("side", PStr (upper trade_type));
               ("size", PInt 10); ("page", PInt 1)] |}.

(** The [try] block: the value returned or the exception raised, with
    the lines printed. *)
Definition try_block (net : request -> http_outcome) (rq : request)
  : result json * list string :=
  match requests_get net rq with
  | Raise e => (Raise e, [])
  | Ok response =>
    match raise_for_status response with
    | Raise e => (Raise e, [])
    | Ok _ =>
      match response_json response with
      | Raise e => (Raise e, [])
      | Ok data =>
        match py_get data "ret_code" JNull with
        | Raise e => (Raise e, [])
        | Ok code =>
          if equals_zero code
          then
            match py_get data "result" (JObj []) with
            | Raise e => (Raise e, [])
            | Ok r =>
              match py_get r "items" (JArr []) with
              | Raise e => (Raise e, [])
              | Ok p2p_opportunities => (Ok p2p_opportunities, [])
              end
            end
          else
            match py_get data "ret_msg" JNull with
            | Raise e => (Raise e, [])
            | Ok msg => (Ok (JArr []), ["Error from API: " +:+ py_str msg])
            end
        end
      end
    end
  end.

(** The function: the value it returns (or the exception that leaves
    it) and the lines it prints. *)
Definition get_bybit_p2p_opportunities (net : request -> http_outcome)
    (base_currency trade_type fiat_currency : string)
  : result json * list string :=
  let rq := the_request base_currency trade_type fiat_currency in
  match try_block net rq with
  | (Raise (RequestException _ msg), out) =>
    (Ok (JArr []), (out ++ ["HTTP request failed: " +:+ msg])%list)
  | other => other
  end.

(** The payload follows the schema of the endpoint as far as the function
    looks: an object whose [result], if there, is an object whose [items],
    if there, is an array. *)
Definition follows_schema (data : json) : bool :=
  match data with
  | JObj fields =>
    match dict_lookup "result" fields with
    | None => true
    | Some (JObj inner) =>
      match dict_lookup "items" inner with
      | None | Some (JArr _) => true
      | Some _ => false
      end
    | Some _ => false
    end
  | _ => false
  end.
End Api.

(** Servers for the examples. *)
Definition answering (data : json) : request -> http_outcome :=
  fun rq => Responded
    {| status_code := 200; reason := "OK";
       response_url := url rq; body := Json data |}.

Definition unreachable : request -> http_outcome :=
  fun _ => Failed "ConnectionError" "Max retries exceeded".

Definition no_repr : json -> string := fun _ => "".

Definition one_offer : json :=
  JObj [("ret_code", JInt 0); ("ret_msg", JStr "SUCCESS");
        ("result", JObj [("count", JInt 1);
                         ("items", JArr [JObj [("nickName", JStr "trader-1")]])])].

Definition result_null : json :=
  JObj [("ret_code", JInt 0); ("ret_msg", JStr "SUCCESS"); ("result", JNull)].

Definition items_null : json :=
  JObj [("ret_code", JInt 0); ("ret_msg", JStr "SUCCESS");
        ("result", JObj [("count", JInt 0); ("items", JNull)])].

Definition params_error : json :=
  JObj [("ret_code", JInt 10001); ("ret_msg", JStr "params error"); ("result", JNull)].
End Bybit.

(** ** A simulated outside world

    A small file system with a scripted [git], used to run [fetch] on
    concrete inputs. *)

Module Sim.
Inductive kind : Type := File | Dir.

Record host : Type := {
    fs : gmap string kind;
    (** clone URLs that fail, with exit status and what [git] writes to
        its standard error *)
    failing : gmap string (Z * list Byte.byte);
    read_only : bool;
    clock : Q
  }.

Fixpoint strip_prefix (p s : string) : option string :=
    match p, s with
    | EmptyString, _ => Some s
    | String a p', String b s' => if Ascii.eqb a b then strip_prefix p' s' else None
    | String _ _, EmptyString => None
    end.

Fixpoint has_sep (s : string) : bool :=
    match s with
    | EmptyString => false
    | String c r => Ascii.eqb c "/" || has_sep r
    end.

(** The name under which [key] is an entry of directory [dir], if it is. *)
Definition child_of (dir key : string) : option string :=
    match strip_prefix (dir +:+ "/") key with
    | Some EmptyString => None
    | Some n => if has_sep n then None else Some n
    | None => None
    end.

Definition entries (w : host) (dir : string) : list string :=
    omap (fun kv => child_of dir (fst kv)) (map_to_list (fs w)).

Definition exists_ (w : host) (path : string) : bool :=
    match fs w !! path with Some _ => true | None => false end.

Definition listdir (w : host) (path : string) : result (list string) :=
    match fs w !! path with
    | Some Dir => Ok (entries w path)
    | Some File => Raise (OSError "NotADirectoryError" path)
    | None => Raise (OSError "FileNotFoundError" path)
    end.

Definition with_fs (f : gmap string kind) (w : host) : host :=
    {| fs := f; failing := failing w; read_only := read_only w; clock := clock w |}.

Definition tick (w : host) : host :=
    {| fs := fs w; failing := failing w; read_only := read_only w;
       clock := (clock w + 1)%Q |}.

Definition makedirs (w : host) (path : string) : result unit * host :=
    match path with
    | EmptyString => (Raise (OSError "FileNotFoundError" path), w)
    | _ =>
      if read_only w then (Raise (OSError "PermissionError" path), w)
      else if exists_ w path then (Raise (OSError "FileExistsError" path), w)
      else (Ok tt, with_fs (<[path := Dir]> (fs w)) w)
    end.

Definition bytes_of (s : string) : list Byte.byte := list_byte_of_string s.

(** [git clone url dest]: fails as scripted, refuses a destination that
    is a file or a directory with entries, and otherwise leaves a work
    tree with a [.git] directory. *)
Definition git_clone (w : host) (url dest : string) : run_outcome * host :=
    match failing w !! url with
    | Some (rc, err) => (Exited rc [] err, tick w)
    | None =>
      let blocked :=
        match fs w !! dest with
        | Some File => true
        | Some Dir => match entries w dest with [] => false | _ => true end
        | None => false
        end in
      if blocked
      then (Exited 128 []
              (bytes_of ("fatal: destination path '" +:+ dest
                         +:+ "' already exists and is not an empty directory.")),
            tick w)
      else (Exited 0 [] (bytes_of ("Cloning into '" +:+ dest +:+ "'...")),
            tick (with_fs (<[dest +:+ "/.git" := Dir]> (<[dest := Dir]> (fs w))) w))
    end.

Definition run (w : host) (args : list string) : run_outcome * host :=
    match args with
    | ["git"; "clone"; url; dest] => git_clone w url dest
    | cmd :: _ => (NotStarted "FileNotFoundError" cmd, w)
    | [] => (NotStarted "FileNotFoundError" "", w)
    end.

#[global] Instance os : OS host := {
    os_path_exists := exists_;
    os_listdir := listdir;
    os_makedirs := makedirs;
    subprocess_run := run;
    time_time := clock
  }.

  (** *** Concrete objects and worlds *)

Definition datasource (target : string) (callback : bool) : instance :=
    __init__ {| name := "codecommit";
                params := {[ "region" := "us-east-1"; "target_directory" := target;
                             "access_key" := "AKIA"; "secret_key" := "s3cr3t" ]};
                progress_callback := callback;
                _total_items := 7; _processed_items := 7;
                _total_processing_time := 7%Q; _fetch_completed := true |}.

Definition url_of (repo : string) : string :=
    "https://git-codecommit.us-east-1.amazonaws.com/v1/repos/" +:+ repo.

(** An empty disk on which every clone succeeds. *)
Definition blank : host :=
    {| fs := ∅; failing := ∅; read_only := false; clock := 0%Q |}.

(** [/data] exists; [Repo1] is already cloned there. *)
Definition partly_synced : host :=
    {| fs := {[ "/data" := Dir; "/data/Repo1" := Dir; "/data/Repo1/.git" := Dir ]};
       failing := ∅; read_only := false; clock := 0%Q |}.

(** Everything is cloned under [/data]. *)
Definition synced : host :=
    {| fs := {[ "/data" := Dir;
                "/data/Repo1" := Dir; "/data/Repo1/.git" := Dir;
                "/data/Repo2" := Dir; "/data/Repo2/.git" := Dir;
                "/data/Repo3" := Dir; "/data/Repo3/.git" := Dir ]};
       failing := ∅; read_only := false; clock := 0%Q |}.

(** The remote refuses [Repo2]. *)
Definition repo2_denied : host :=
    {| fs := {[ "/data" := Dir ]};
       failing := {[ url_of "Repo2" :=
                       (128, bytes_of "fatal: unable to access: The requested URL returned error: 403") ]};
       read_only := false; clock := 0%Q |}.

(** [git] runs under an ISO-8859-1 locale: its message for [Repo1]
    holds the byte 0xFC (u-umlaut in Latin-1), which is not UTF-8. *)
Definition latin1_message : list Byte.byte :=
    (bytes_of "fatal: Zugriff nicht m" ++ [Byte.xfc] ++ bytes_of "glich")%list.

Definition repo1_denied_latin1 : host :=
    {| fs := {[ "/data" := Dir ]};
       failing := {[ url_of "Repo1" := (128, latin1_message) ]};
       read_only := false; clock := 0%Q |}.

(** [/data] holds a regular file named [Repo1]. *)
Definition repo1_is_a_file : host :=
    {| fs := {[ "/data" := Dir; "/data/Repo1" := File ]};
       failing := ∅; read_only := false; clock := 0%Q |}.

(** Nothing can be created. *)
Definition locked : host :=
    {| fs := ∅; failing := ∅; read_only := true; clock := 0%Q |}.

Definition start (target : string) (callback : bool) (w : host) : state host :=
    {| self := datasource target callback; world := w |}.
End Sim.

(** ** The lines [display_p2p_opportunities] prints for one offer *)

Module Cli.
(** An entry of [items] as the display reads it: the string-valued keys
    ([nickname], [price], [currency], [quantity], [token], as the endpoint
    sends them) and the list under [payMethods], absent when the key is. *)
Record offer : Type := {
  scalars : gmap string string;
  payMethods : option (list (gmap string string))
}.

(** [d.get(key, dflt)] *)
Definition dict_get (d : gmap string string) (key dflt : string) : string :=
  default dflt (d !! key).

(** [sep.join(l)] *)
Fixpoint join (sep : string) (l : list string) : string :=
  match l with
  | [] => ""
  | [x] => x
  | x :: l' => x +:+ sep +:+ join sep l'
  end.

(** [s * n] *)
Fixpoint str_mul (s : string) (n : nat) : string :=
  match n with
  | O => ""
  | S n' => s +:+ str_mul s n'
  end.

(** The five [print] calls of one turn of the loop. *)
Definition offer_lines (opp : offer) : list string :=
  [ "Trader: " +:+ dict_get (scalars opp) "nickname" "N/A";
    "Price: " +:+ dict_get (scalars opp) "price" "N/A" +:+ " "
              +:+ dict_get (scalars opp) "currency" "N/A";
    "Quantity Available: " +:+ dict_get (scalars opp) "quantity" "N/A" +:+ " "
                           +:+ dict_get (scalars opp) "token" "N/A";
    "Payment Methods: "
      +:+ join ", " (map (fun pm => dict_get pm "name" "N/A")
                         (default [] (payMethods opp)));
    str_mul "-" 40 ].
End Cli.

(** ** Further notions for the statements about [fetch] *)

(** Log events written at the default level. *)
Definition info_logged (evs : list event) : list event :=
  omap (fun e => match e with Log _ None => Some e | _ => None end) evs.

(** Log events written with [level="error"]. *)
Definition error_logged (evs : list event) : list event :=
  omap (fun e => match e with Log _ (Some "error") => Some e | _ => None end) evs.

Definition is_ascii (bs : list Byte.byte) : bool := forallb (in_range 0x00 0x7F) bs.

Definition is_os_error (e : exn) : Prop := ∃ kind filename, e = OSError kind filename.

(** What holds of a run of the loop over [l] from [s], however it ends. *)
Definition loop_facts {W : Type} {os : OS W} (region target : string)
    (l : list string) (s : state W) (o : outcome W unit) : Prop :=
  name (self (final o)) = name (self s)
  ∧ params (self (final o)) = params (self s)
  ∧ progress_callback (self (final o)) = progress_callback (self s)
  ∧ _total_items (self (final o)) = _total_items (self s)
  ∧ _fetch_completed (self (final o)) = _fetch_completed (self s)
  ∧ sublist (DataSource.runs (emitted o)) (map (DataSource.clone_args region target) l)
  ∧ (progress_callback (self s) = false -> DataSource.progress_calls (emitted o) = [])
  ∧ _processed_items (self s) <= _processed_items (self (final o))
    <= _processed_items (self s) + Z.of_nat (length l)
  ∧ match res o with
    | Ok _ =>
      Forall2 (fun r e => e = DataSource.skip_log r ∨ e = DataSource.cloning_log region r)
              l (info_logged (emitted o))
    | Raise e =>
      (∃ w path, os_listdir w path = Raise e)
      ∨ (∃ bs, e = UnicodeDecodeError bs)
      ∨ is_os_error e
    end.

(** * Properties *)

Import DataSource.

(** ** Laws of the statement combinators *)

Section MonadLaws.
Context {W : Type} {os : OS W}.

Lemma after_nil {A} (o : outcome W A) : after [] o = o.
  Proof. destruct o; reflexivity. Qed.

Lemma after_after {A} evs evs' (o : outcome W A) :
    after evs (after evs' o) = after (evs ++ evs') o.
  Proof. unfold after; cbn. by rewrite app_assoc. Qed.

Lemma bind_ok {A B} (m : M W A) (k : A -> M W B) s a :
    res (m s) = Ok a -> bind m k s = after (emitted (m s)) (k a (final (m s))).
  Proof. intros H. unfold bind. by rewrite H. Qed.

Lemma bind_raise {A B} (m : M W A) (k : A -> M W B) s e :
    res (m s) = Raise e ->
    bind m k s = {| res := Raise e; final := final (m s); emitted := emitted (m s) |}.
  Proof. intros H. unfold bind. by rewrite H. Qed.

Lemma bind_ret {A B} (a : A) (k : A -> M W B) s : bind (ret a) k s = k a s.
  Proof. unfold bind, ret; cbn. apply after_nil. Qed.

Lemma bind_time {B} (k : Q -> M W B) s :
    bind time_time_ k s = k (time_time (world s)) s.
  Proof. unfold bind, time_time_, ret; cbn. apply after_nil. Qed.

Lemma bind_exists {B} path (k : bool -> M W B) s :
    bind (os_path_exists_ path) k s = k (os_path_exists (world s) path) s.
  Proof. unfold bind, os_path_exists_, ret; cbn. apply after_nil. Qed.

Lemma bind_get_self {B} (k : instance -> M W B) s :
    bind get_self k s = k (self s) s.
  Proof. unfold bind, get_self; cbn. apply after_nil. Qed.

Lemma bind_params_get {B} key dflt (k : string -> M W B) s :
    bind (params_get key dflt) k s = k (default dflt (params (self s) !! key)) s.
  Proof. unfold params_get. unfold bind at 1. rewrite bind_get_self. cbn. apply after_nil. Qed.

Lemma bind_modify {B} f (k : unit -> M W B) s :
    bind (modify_self f) k s = k tt {| self := f (self s); world := world s |}.
  Proof. unfold bind, modify_self; cbn. apply after_nil. Qed.

Lemma bind_log {B} msg level (k : unit -> M W B) s :
    bind (BBLogger_log msg level) k s = after [Log msg level] (k tt s).
  Proof. reflexivity. Qed.

Lemma bind_emit {B} ev (k : unit -> M W B) s :
    bind (emit ev) k s = after [ev] (k tt s).
  Proof. reflexivity. Qed.

Lemma bind_assoc {A B C} (m : M W A) (f : A -> M W B) (g : B -> M W C) s :
    bind (bind m f) g s = bind m (fun x => bind (f x) g) s.
  Proof.
    unfold bind.
    destruct (m s) as [[a|e] s1 ev1]; cbn; [|reflexivity].
    destruct (f a s1) as [[b|e] s2 ev2]; cbn; [|reflexivity].
    by rewrite after_after.
  Qed.
End MonadLaws.

(** ** One iteration of the loop *)

Section Item.
Context {W : Type} {os : OS W}.

Lemma bind_listdir_ok {B} path (k : list string -> M W B) s l :
    os_listdir (world s) path = Ok l -> bind (os_listdir_ path) k s = k l s.
  Proof.
    intros H. unfold bind, os_listdir_. rewrite H. cbn. apply after_nil.
  Qed.

Lemma bind_listdir_raise {B} path (k : list string -> M W B) s e :
    os_listdir (world s) path = Raise e ->
    bind (os_listdir_ path) k s = {| res := Raise e; final := s; emitted := [] |}.
  Proof. intros H. unfold bind, os_listdir_. rewrite H. reflexivity. Qed.

Lemma run_check_eq args (s : state W) :
    subprocess_run_check args s =
    {| res := match fst (subprocess_run (world s) args) with
              | Exited rc out err =>
                if Z.eqb rc 0 then Ok tt else Raise (CalledProcessError rc args out err)
              | NotStarted kind filename => Raise (OSError kind filename)
              end;
       final := {| self := self s; world := snd (subprocess_run (world s) args) |};
       emitted := [Run args] |}.
  Proof. unfold subprocess_run_check. by destruct (subprocess_run _ _). Qed.

(** The statements after the [if] of the body, from the state [s1] in
    which the branch ended. *)
Lemma finish_item (step_start : Q) (s1 : state W) :
    (now <- time_time_ ;;
     modify_self (fun o => set_total_processing_time
                             (_total_processing_time o + (now - step_start))%Q o) ;;
     modify_self (fun o => set_processed_items (_processed_items o + 1) o) ;;
     o <- get_self ;;
     if progress_callback o
     then emit (Progress (get_name o) (total_to_process o) (total_processed o)
                         (estimated_remaining_time o))
     else ret tt)%py s1
    = {| res := Ok tt;
         final := {| self := bump (time_time (world s1) - step_start)%Q (self s1);
                     world := world s1 |};
         emitted := callback_events
                      (bump (time_time (world s1) - step_start)%Q (self s1)) |}.
  Proof.
    rewrite bind_time, !bind_modify, bind_get_self. cbn [self world].
    unfold callback_events, bump.
    by destruct (progress_callback _).
  Qed.

(** The [try] statement of the body. *)
Lemma clone_attempt region target repo (s : state W) :
    try_except
      (BBLogger_log ("Cloning repository " +:+ repo +:+ " from "
                     +:+ clone_url_of region repo +:+ " ...") None ;;
       subprocess_run_check ["git"; "clone"; clone_url_of region repo;
                             os_path_join target repo])%py
      (fun e =>
         match e with
         | CalledProcessError _ _ _ stderr =>
           Some (text <- lift (decode stderr) ;;
                 BBLogger_log ("Error cloning " +:+ repo +:+ ": " +:+ text)
                              (Some "error"))%py
         | _ => None
         end) s
    = let args := clone_args region target repo in
      let s' := {| self := self s; world := snd (subprocess_run (world s) args) |} in
      let tried := [cloning_log region repo; Run args] in
      match fst (subprocess_run (world s) args) with
      | Exited rc out err =>
        if Z.eqb rc 0
        then {| res := Ok tt; final := s'; emitted := tried |}
        else match decode err with
             | Ok text =>
               {| res := Ok tt; final := s';
                  emitted := tried ++ [error_log repo text] |}
             | Raise e => {| res := Raise e; final := s'; emitted := tried |}
             end
      | NotStarted kind filename =>
        {| res := Raise (OSError kind filename); final := s'; emitted := tried |}
      end.
  Proof.
    unfold try_except. rewrite bind_log, run_check_eq.
    fold (clone_args region target repo).
    destruct (subprocess_run (world s) (clone_args region target repo))
      as [[rc out err|kind filename] w']; cbn.
    - destruct (Z.eqb rc 0); cbn; [reflexivity|].
      unfold bind, lift, BBLogger_log, emit.
      destruct (decode err) as [text|e]; cbn; reflexivity.
    - reflexivity.
  Qed.

Lemma fetch_item_run region target repo (s : state W) :
    item_run region target repo s (fetch_item region target repo s).
  Proof.
    unfold fetch_item. destruct s as [me w].
    rewrite bind_time, bind_exists.
    set (s := {| self := me; world := w |}).
    assert (Hclone : missing_or_empty (world s) (os_path_join target repo) = true ->
      item_run region target repo s
        ((try_except
            (BBLogger_log ("Cloning repository " +:+ repo +:+ " from "
                           +:+ clone_url_of region repo +:+ " ...") None ;;
             subprocess_run_check ["git"; "clone"; clone_url_of region repo;
                                   os_path_join target repo])
            (fun e =>
               match e with
               | CalledProcessError _ _ _ stderr =>
                 Some (text <- lift (decode stderr) ;;
                       BBLogger_log ("Error cloning " +:+ repo +:+ ": " +:+ text)
                                    (Some "error"))
               | _ => None
               end) ;;
          now <- time_time_ ;;
          modify_self (fun o => set_total_processing_time
                                  (_total_processing_time o
                                   + (now - time_time (world s)))%Q o) ;;
          modify_self (fun o => set_processed_items (_processed_items o + 1) o) ;;
          o <- get_self ;;
          if progress_callback o
          then emit (Progress (get_name o) (total_to_process o) (total_processed o)
                              (estimated_remaining_time o))
          else ret tt)%py s)).
    { intros Hme. unfold bind at 1. rewrite clone_attempt. cbn zeta.
      destruct (subprocess_run (world s) (clone_args region target repo))
        as [[rc out err|kind filename] w'] eqn:Hrun; cbn [fst snd].
      - destruct (Z.eqb_spec rc 0) as [->|Hrc]; cbn [res final emitted].
        + rewrite finish_item. exact (run_cloned _ _ _ _ out err w' Hme Hrun).
        + destruct (decode err) as [text|e] eqn:Hdec; cbn [res final emitted].
          * rewrite finish_item. exact (run_failed _ _ _ _ rc out err text w' Hme Hrun Hrc Hdec).
          * exact (run_failed_undecodable _ _ _ _ rc out err e w' Hme Hrun Hrc Hdec).
      - exact (run_not_started _ _ _ _ kind filename w' Hme Hrun). }
    destruct (os_path_exists (world s) (os_path_join target repo)) eqn:Hex.
    - rewrite bind_assoc.
      destruct (os_listdir (world s) (os_path_join target repo)) as [[|x xs]|e] eqn:Hls.
      + rewrite (bind_listdir_ok _ _ _ _ Hls), bind_ret. cbn [truthy].
        apply Hclone. unfold missing_or_empty. by rewrite Hex, Hls.
      + rewrite (bind_listdir_ok _ _ _ _ Hls), bind_ret. cbn [truthy].
        rewrite bind_log, finish_item.
        refine (run_skip _ _ _ _ _). unfold present. by rewrite Hex, Hls.
      + rewrite (bind_listdir_raise _ _ _ _ Hls).
        exact (run_unlistable _ _ _ _ e Hex Hls).
    - rewrite bind_ret. apply Hclone. unfold missing_or_empty. by rewrite Hex.
  Qed.
End Item.

(** ** The shape of a whole run *)

Section Run.
Context {W : Type} {os : OS W}.
Variable L : instance -> list string.

Lemma bind_makedirs {B} path (k : unit -> M W B) (s : state W) :
    bind (os_makedirs_ path) k s =
    match os_makedirs (world s) path with
    | (Ok _, w') => after [Makedirs path] (k tt {| self := self s; world := w' |})
    | (Raise e, w') =>
      {| res := Raise e; final := {| self := self s; world := w' |};
         emitted := [Makedirs path] |}
    end.
  Proof.
    unfold bind, os_makedirs_.
    destruct (os_makedirs (world s) path) as [[[]|e] w']; reflexivity.
  Qed.

(** [fetch] is the directory check followed by [sync_from]. *)
Lemma fetch_eq (s : state W) :
    fetch L s =
    if os_path_exists (world s) (target_directory_of s)
    then sync_from L s (world s) [start_log s]
    else match os_makedirs (world s) (target_directory_of s) with
         | (Ok _, w') =>
           sync_from L s w' [start_log s; Makedirs (target_directory_of s); created_log s]
         | (Raise e, w') =>
           {| res := Raise e; final := {| self := self s; world := w' |};
              emitted := [start_log s; Makedirs (target_directory_of s)] |}
         end.
  Proof.
    unfold fetch.
    rewrite bind_time, !bind_params_get, bind_log, bind_exists.
    fold (target_directory_of s). fold (region_of s).
    assert (Hrest : forall w' pre,
      after pre
        ((o <- get_self ;;
          modify_self (set_total_items (Z.of_nat (length (L o)))) ;;
          o0 <- get_self ;;
          BBLogger_log ("Found " +:+ str_of_int (_total_items o0) +:+ " repositories.") None ;;
          for_each (L o) (fetch_item (region_of s) (target_directory_of s)) ;;
          modify_self (set_fetch_completed true) ;;
          BBLogger_log "AWS CodeCommit fetch process completed." None)%py
           {| self := self s; world := w' |})
      = sync_from L s w' pre).
    { intros w' pre.
      rewrite bind_get_self, bind_modify, bind_get_self, bind_log. cbn [self world].
      unfold sync_from, loop, loop_start, bind.
      destruct (for_each _ _ _) as [[[]|e] s2 evs]; cbn; reflexivity. }
    destruct (os_path_exists (world s) (target_directory_of s)); cbn [negb].
    - rewrite bind_ret. destruct s as [me w]. apply Hrest.
    - rewrite bind_assoc, bind_makedirs.
      destruct (os_makedirs (world s) (target_directory_of s)) as [[[]|e] w'].
      + rewrite bind_log, !after_after. apply Hrest.
      + reflexivity.
  Qed.
End Run.

(** ** The loop *)

Section Loop.
Context {W : Type} {os : OS W}.
Variables region target : string.

Local Abbreviation body := (fetch_item region target).

(** Induction along the iterations of the loop. *)
Lemma for_each_item_ind (P : list string -> state W -> outcome W unit -> Prop) :
    (forall s, P [] s (ret tt s)) ->
    (forall r l s o1 e,
        item_run region target r s o1 -> res o1 = Raise e ->
        P (r :: l) s {| res := Raise e; final := final o1; emitted := emitted o1 |}) ->
    (forall r l s o1 o2,
        item_run region target r s o1 -> res o1 = Ok tt ->
        o2 = for_each l body (final o1) ->
        P l (final o1) o2 -> P (r :: l) s (after (emitted o1) o2)) ->
    forall l s, P l s (for_each l body s).
  Proof.
    intros Hnil Hraise Hok l.
    induction l as [|r l IH]; intros s; [apply Hnil|].
    cbn [for_each]. unfold bind.
    pose proof (fetch_item_run region target r s) as Hrun.
    destruct (res (body r s)) as [[]|e] eqn:Hres.
    - eapply Hok; eauto.
    - eapply Hraise; eauto.
  Qed.

(** The loop touches only the two counters of the object. *)
Lemma loop_frame l (s : state W) :
    let o := for_each l body s in
    name (self (final o)) = name (self s)
    ∧ params (self (final o)) = params (self s)
    ∧ progress_callback (self (final o)) = progress_callback (self s)
    ∧ _total_items (self (final o)) = _total_items (self s)
    ∧ _fetch_completed (self (final o)) = _fetch_completed (self s).
  Proof.
    cbv zeta. revert l s.
    apply (for_each_item_ind (fun _ s o =>
      name (self (final o)) = name (self s)
      ∧ params (self (final o)) = params (self s)
      ∧ progress_callback (self (final o)) = progress_callback (self s)
      ∧ _total_items (self (final o)) = _total_items (self s)
      ∧ _fetch_completed (self (final o)) = _fetch_completed (self s))).
    - intros s. by cbn.
    - intros r l s o1 e Hrun Hres. cbn [final].
      destruct Hrun; cbn in *; try discriminate; done.
    - intros r l s o1 o2 Hrun Hres _ IH. cbn [final after].
      destruct Hrun; cbn in *; try discriminate; done.
  Qed.

(** A loop that runs to its end has counted every identifier. *)
Lemma loop_processed l (s : state W) :
    let o := for_each l body s in
    res o = Ok tt ->
    _processed_items (self (final o)) = _processed_items (self s) + Z.of_nat (length l).
  Proof.
    cbv zeta. revert l s.
    apply (for_each_item_ind (fun l s o =>
      res o = Ok tt ->
      _processed_items (self (final o)) = _processed_items (self s) + Z.of_nat (length l))).
    - intros s _. cbn. lia.
    - intros r l s o1 e Hrun Hres. cbn. discriminate.
    - intros r l s o1 o2 Hrun Hres _ IH. cbn [final after res]. intros Ho2.
      rewrite (IH Ho2).
      destruct Hrun; cbn in *; try discriminate; lia.
  Qed.
End Loop.

Section LoopTime.
Context {W : Type} {os : OS W}.
Variables region target : string.

(** The processing time is added to, one term per iteration. *)
Lemma loop_time l (s : state W) :
    let o := for_each l (fetch_item region target) s in
    res o = Ok tt ->
    ∃ elapsed : list Q,
      length elapsed = length l
      ∧ _total_processing_time (self (final o))
        = fold_left Qplus elapsed (_total_processing_time (self s)).
  Proof.
    cbv zeta. revert l s.
    apply (for_each_item_ind region target (fun l s o =>
      res o = Ok tt ->
      ∃ elapsed : list Q,
        length elapsed = length l
        ∧ _total_processing_time (self (final o))
          = fold_left Qplus elapsed (_total_processing_time (self s)))).
    - intros s _. by exists [].
    - intros r l s o1 e Hrun Hres. cbn. discriminate.
    - intros r l s o1 o2 Hrun Hres _ IH. cbn [final after res]. intros Ho2.
      destruct (IH Ho2) as (els & Hlen & Htime).
      destruct Hrun; cbn in *; try discriminate;
        (eexists (_ :: els); split; [cbn; by rewrite Hlen | by rewrite Htime]).
  Qed.
End LoopTime.

(** ** Counters after a run *)

Section Counters.
Context {W : Type} {os : OS W}.
Variable L : instance -> list string.

Lemma sync_from_counters (s : state W) w' pre :
    let o := sync_from L s w' pre in
    res o = Ok tt ->
    _processed_items (self (final o))
      = _processed_items (self s) + Z.of_nat (length (L (self s)))
    ∧ _total_items (self (final o)) = Z.of_nat (length (L (self s)))
    ∧ _fetch_completed (self (final o)) = true
    ∧ ∃ elapsed : list Q,
        length elapsed = length (L (self s))
        ∧ _total_processing_time (self (final o))
          = fold_left Qplus elapsed (_total_processing_time (self s)).
  Proof.
    cbv zeta. unfold sync_from.
    destruct (res (loop L s w')) as [[]|e] eqn:Hloop; [intros _|discriminate].
    cbn [final self _processed_items _total_items _fetch_completed
         _total_processing_time set_fetch_completed].
    unfold loop in *.
    pose proof (loop_processed _ _ _ _ Hloop) as Hp.
    pose proof (loop_time _ _ _ _ Hloop) as Ht.
    destruct (loop_frame (region_of s) (target_directory_of s)
                (L (self s)) (loop_start L s w')) as (_ & _ & _ & Hn & _).
    repeat split; [by rewrite Hp | by rewrite Hn | exact Ht].
  Qed.

Lemma fetch_counters (s : state W) :
    let o := fetch L s in
    res o = Ok tt ->
    _processed_items (self (final o))
      = _processed_items (self s) + Z.of_nat (length (L (self s)))
    ∧ _total_items (self (final o)) = Z.of_nat (length (L (self s)))
    ∧ _fetch_completed (self (final o)) = true
    ∧ ∃ elapsed : list Q,
        length elapsed = length (L (self s))
        ∧ _total_processing_time (self (final o))
          = fold_left Qplus elapsed (_total_processing_time (self s)).
  Proof.
    cbv zeta. rewrite fetch_eq.
    destruct (os_path_exists _ _); [apply sync_from_counters|].
    destruct (os_makedirs _ _) as [[[]|e] w']; [apply sync_from_counters|discriminate].
  Qed.

(** C1: for every run of [fetch] over a listing of N identifiers that
    starts from a freshly constructed object, when [fetch] returns,
    [_processed_items] is N and [_fetch_completed] is true, whatever the
    file system and the clone tool did for each identifier. *)
Theorem fetch_processes_every_identifier (base : instance) (w : W) :
    let s := {| self := __init__ base; world := w |} in
    res (fetch L s) = Ok tt ->
    _processed_items (self (final (fetch L s))) = Z.of_nat (length (L (self s)))
    ∧ _fetch_completed (self (final (fetch L s))) = true.
  Proof.
    intros s Hres.
    destruct (fetch_counters s Hres) as (Hp & _ & Hc & _).
    split; [|exact Hc]. rewrite Hp. cbn. lia.
  Qed.
End Counters.

Lemma fetch_processes_every_identifier_witness :
  let o := fetch _get_repositories (Sim.start "/data" false Sim.repo2_denied) in
  res o = Ok tt
  ∧ runs (emitted o) = [clone_args "us-east-1" "/data" "Repo1";
                        clone_args "us-east-1" "/data" "Repo2";
                        clone_args "us-east-1" "/data" "Repo3"]
  ∧ _processed_items (self (final o)) = 3
  ∧ _fetch_completed (self (final o)) = true.
Proof.
  split; [vm_compute; reflexivity|].
  split; [vm_compute; reflexivity|].
  apply (fetch_processes_every_identifier _get_repositories
           (Sim.datasource "/data" false) Sim.repo2_denied).
  vm_compute; reflexivity.
Defined.

(** ** Runs over destinations that are already there *)

Section Selecting.
Lemma runs_app evs evs' : runs (evs ++ evs') = runs evs ++ runs evs'.
  Proof. apply omap_app. Qed.

Lemma created_dirs_app evs evs' :
    created_dirs (evs ++ evs') = created_dirs evs ++ created_dirs evs'.
  Proof. apply omap_app. Qed.

Lemma logged_app evs evs' : logged (evs ++ evs') = logged evs ++ logged evs'.
  Proof. apply omap_app. Qed.

Lemma progress_calls_app evs evs' :
    progress_calls (evs ++ evs') = progress_calls evs ++ progress_calls evs'.
  Proof. apply omap_app. Qed.

Lemma callback_events_quiet o :
    runs (callback_events o) = []
    ∧ created_dirs (callback_events o) = []
    ∧ logged (callback_events o) = [].
  Proof. unfold callback_events. by destruct (progress_callback o). Qed.
End Selecting.

Section Synced.
Context {W : Type} {os : OS W}.
Variables region target : string.

Lemma present_not_missing (w : W) dest :
    present w dest = true -> missing_or_empty w dest = false.
  Proof.
    unfold present, missing_or_empty.
    destruct (os_path_exists w dest); [|discriminate].
    by destruct (os_listdir w dest) as [[|x xs]|e].
  Qed.

Lemma present_listable (w : W) dest :
    present w dest = true ->
    os_path_exists w dest = true ∧ ∃ x xs, os_listdir w dest = Ok (x :: xs).
  Proof.
    unfold present.
    destruct (os_path_exists w dest); [|discriminate].
    destruct (os_listdir w dest) as [[|x xs]|e]; try discriminate. eauto.
  Qed.

(** An iteration over a destination that is present is a skip. *)
Lemma item_run_present repo (s : state W) o :
    item_run region target repo s o ->
    present (world s) (os_path_join target repo) = true ->
    o = item_done s (world s) [skip_log repo].
  Proof.
    intros Hrun Hp.
    pose proof (present_not_missing _ _ Hp) as Hm.
    destruct (present_listable _ _ Hp) as (_ & x & xs & Hls).
    destruct Hrun; congruence.
  Qed.

End Synced.

Section SyncedRun.
Context {W : Type} {os : OS W}.
Variable L : instance -> list string.

End SyncedRun.



(** ** Failing clones *)

Section Failures.
Context {W : Type} {os : OS W}.
Variables region target : string.

(** The step relation is a function of the state. *)
Lemma item_run_deterministic repo (s : state W) o1 o2 :
    item_run region target repo s o1 ->
    item_run region target repo s o2 ->
    o1 = o2.
  Proof.
    intros H1 H2.
    destruct H1, H2;
      unfold present, missing_or_empty in *;
      destruct (os_path_exists (world s) (os_path_join target repo));
      destruct (os_listdir (world s) (os_path_join target repo)) as [[|x xs]|e'];
      cbn in *; congruence.
  Qed.

Lemma fetch_item_is repo (s : state W) o :
    item_run region target repo s o -> fetch_item region target repo s = o.
  Proof.
    intros H. exact (item_run_deterministic _ _ _ _ (fetch_item_run _ _ _ _) H).
  Qed.

(** A failed clone whose diagnostic output decodes is logged at error
    level, counted, and the loop goes on with the next identifier. *)
Lemma decodable_failure_is_passed repo l (s : state W) rc out err text w' :
    missing_or_empty (world s) (os_path_join target repo) = true ->
    subprocess_run (world s) (clone_args region target repo) = (Exited rc out err, w') ->
    rc ≠ 0 ->
    decode err = Ok text ->
    let o := item_done s w' [cloning_log region repo;
                             Run (clone_args region target repo);
                             error_log repo text] in
    for_each (repo :: l) (fetch_item region target) s
    = after (emitted o) (for_each l (fetch_item region target) (final o)).
  Proof.
    intros Hm Hrun Hrc Hdec o. cbn [for_each].
    unfold bind.
    by rewrite (fetch_item_is _ _ _ (run_failed _ _ _ _ rc out err text w' Hm Hrun Hrc Hdec)).
  Qed.

(** One whose output does not decode ends the loop: the exception of
    [decode] is raised from inside the handler. *)
Lemma undecodable_failure_escapes repo l (s : state W) rc out err e w' :
    missing_or_empty (world s) (os_path_join target repo) = true ->
    subprocess_run (world s) (clone_args region target repo) = (Exited rc out err, w') ->
    rc ≠ 0 ->
    decode err = Raise e ->
    for_each (repo :: l) (fetch_item region target) s
    = item_raised s w' e [cloning_log region repo; Run (clone_args region target repo)].
  Proof.
    intros Hm Hrun Hrc Hdec. cbn [for_each].
    unfold bind.
    by rewrite (fetch_item_is _ _ _
                  (run_failed_undecodable _ _ _ _ rc out err e w' Hm Hrun Hrc Hdec)).
  Qed.
End Failures.

(** C3: a clone of [Repo1] exits with status 128 and a diagnostic in
    ISO-8859-1.  The handler's [decode()] raises, the exception leaves the
    loop and [fetch]: nothing is logged at error level, [Repo2] and [Repo3]
    are never attempted, and the run is not completed. *)
Theorem undecodable_clone_error_aborts_run :
  let o := fetch _get_repositories (Sim.start "/data" false Sim.repo1_denied_latin1) in
  res o = Raise (UnicodeDecodeError Sim.latin1_message)
  ∧ runs (emitted o) = [clone_args "us-east-1" "/data" "Repo1"]
  ∧ logged (emitted o) = [start_log (Sim.start "/data" false Sim.repo1_denied_latin1);
                          found_log 3;
                          cloning_log "us-east-1" "Repo1"]
  ∧ _processed_items (self (final o)) = 0
  ∧ _fetch_completed (self (final o)) = false.
Proof. vm_compute. repeat split. Qed.

Example decode_utf8_umlaut :
  decode [Byte.xc3; Byte.xbc] = Ok (string_of_list_byte [Byte.xc3; Byte.xbc]).
Proof. reflexivity. Qed.

Example decode_latin1_umlaut : decode [Byte.xfc] = Raise (UnicodeDecodeError [Byte.xfc]).
Proof. reflexivity. Qed.

Example utf8_valid_samples :
  utf8_valid [Byte.xf0; Byte.x9f; Byte.x98; Byte.x80] = true
  ∧ utf8_valid [Byte.xe2; Byte.x82; Byte.xac] = true
  ∧ utf8_valid [Byte.xc0; Byte.x80] = false
  ∧ utf8_valid [Byte.xed; Byte.xa0; Byte.x80] = false
  ∧ utf8_valid [Byte.xf4; Byte.x90; Byte.x80; Byte.x80] = false
  ∧ utf8_valid [Byte.xe2; Byte.x82] = false.
Proof. repeat split. Qed.

(** ** What happens for each identifier *)

Section EachIdentifier.
Context {W : Type} {os : OS W}.

Lemma for_each_app {A} (l1 l2 : list A) (body : A -> M W unit) (s : state W) :
    res (for_each l1 body s) = Ok tt ->
    for_each (l1 ++ l2) body s
    = after (emitted (for_each l1 body s))
            (for_each l2 body (final (for_each l1 body s))).
  Proof.
    revert s. induction l1 as [|x l1 IH]; intros s Hres.
    - cbn. by rewrite after_nil.
    - cbn [for_each app] in *. unfold bind in *.
      destruct (body x s) as [[[]|e] s1 evs1]; cbn in *; [|discriminate].
      rewrite IH, after_after; [done|].
      by destruct (res (for_each l1 body s1)) as [[]|].
  Qed.

Variable L : instance -> list string.

(** The two branches of an iteration: for every identifier of the
    listing that the loop reaches, the destination is [target_directory]
    joined with the identifier; when it exists and lists an entry the clone
    is skipped and the skip is logged; when it is missing or an empty
    directory [git clone] is invoked on the URL made from the region and
    the identifier, into that destination.  (A destination that exists and
    cannot be listed is in neither branch: see below.) *)
Theorem each_identifier_is_skipped_or_cloned (s : state W) (w0 : W) l1 repo l2 :
    L (self s) = l1 ++ repo :: l2 ->
    let region := region_of s in
    let target_directory := target_directory_of s in
    let before := for_each l1 (fetch_item region target_directory) (loop_start L s w0) in
    res before = Ok tt ->
    let dest_path := os_path_join target_directory repo in
    let clone_url :=
      "https://git-codecommit." +:+ region +:+ ".amazonaws.com/v1/repos/" +:+ repo in
    let step := fetch_item region target_directory repo (final before) in
    loop L s w0
    = after (emitted before)
        (bind (fetch_item region target_directory repo)
              (fun _ => for_each l2 (fetch_item region target_directory))
              (final before))
    ∧ (present (world (final before)) dest_path = true ->
       res step = Ok tt
       ∧ runs (emitted step) = []
       ∧ logged (emitted step) = [skip_log repo]
       ∧ world (final step) = world (final before))
    ∧ (missing_or_empty (world (final before)) dest_path = true ->
       runs (emitted step) = [["git"; "clone"; clone_url; dest_path]]
       ∧ ∃ rest, emitted step
                 = cloning_log region repo
                   :: Run ["git"; "clone"; clone_url; dest_path] :: rest).
  Proof.
    intros HL region target_directory before Hbefore dest_path clone_url step.
    split; [|split].
    - unfold loop. rewrite HL. by rewrite for_each_app.
    - intros Hp.
      pose proof (item_run_present _ _ _ _ _
                    (fetch_item_run region target_directory repo (final before)) Hp) as Hs.
      subst step. rewrite Hs.
      destruct (callback_events_quiet
                  (bump (time_time (world (final before))
                         - time_time (world (final before)))%Q (self (final before))))
        as (Hq1 & _ & Hq3).
      cbn [item_done res final emitted world].
      by rewrite runs_app, logged_app, Hq1, Hq3.
    - intros Hm. subst dest_path clone_url.
      pose proof (fetch_item_run region target_directory repo (final before)) as Hrun.
      fold step in Hrun.
      destruct Hrun as [Hp|? ? Hls| | | | ].
      + apply present_not_missing in Hp. congruence.
      + unfold missing_or_empty in Hm. rewrite H, Hls in Hm. discriminate.
      + cbn [item_done emitted]. rewrite runs_app.
        destruct (callback_events_quiet
                    (bump (time_time w' - time_time (world (final before)))%Q
                          (self (final before)))) as (-> & _).
        split; [reflexivity|]. eexists. reflexivity.
      + cbn [item_done emitted]. rewrite runs_app.
        destruct (callback_events_quiet
                    (bump (time_time w' - time_time (world (final before)))%Q
                          (self (final before)))) as (-> & _).
        split; [reflexivity|]. eexists. reflexivity.
      + cbn [item_raised emitted]. split; [reflexivity|]. eexists. reflexivity.
      + cbn [item_raised emitted]. split; [reflexivity|]. eexists. reflexivity.
  Qed.
End EachIdentifier.

Lemma each_identifier_is_skipped_or_cloned_witness :
  let s := Sim.start "/data" false Sim.partly_synced in
  let before := for_each ["Repo1"] (fetch_item "us-east-1" "/data")
                  (loop_start _get_repositories s Sim.partly_synced) in
  let step := fetch_item "us-east-1" "/data" "Repo2" (final before) in
  runs (emitted before) = []
  ∧ logged (emitted before) = [skip_log "Repo1"]
  ∧ missing_or_empty (world (final before)) "/data/Repo2" = true
  ∧ runs (emitted step)
    = [["git"; "clone";
        "https://git-codecommit.us-east-1.amazonaws.com/v1/repos/Repo2"; "/data/Repo2"]].
Proof.
  intros s before step.
  split; [vm_compute; reflexivity|].
  split; [vm_compute; reflexivity|].
  split; [vm_compute; reflexivity|].
  assert (Hlist : _get_repositories (self s) = ["Repo1"] ++ "Repo2" :: ["Repo3"])
    by reflexivity.
  assert (Hbefore : res before = Ok tt) by (vm_compute; reflexivity).
  destruct (each_identifier_is_skipped_or_cloned _get_repositories s Sim.partly_synced
              ["Repo1"] "Repo2" ["Repo3"] Hlist Hbefore) as (_ & _ & Hclone).
  destruct Hclone as [Hruns _]; [vm_compute; reflexivity|].
  exact Hruns.
Defined.

Section Unlistable.
Context {W : Type} {os : OS W}.

(** When the destination exists and [os.listdir] raises on it, the
    exception leaves the iteration before anything is logged, run or
    counted: the condition of the [if] is evaluated outside the [try]. *)
Lemma unlistable_destination_raises region target repo (s : state W) e :
  os_path_exists (world s) (os_path_join target repo) = true ->
  os_listdir (world s) (os_path_join target repo) = Raise e ->
  fetch_item region target repo s
  = {| res := Raise e; final := s; emitted := [] |}.
Proof.
  intros Hex Hls.
  rewrite (fetch_item_is _ _ _ _ _ (run_unlistable _ _ _ _ e Hex Hls)).
  by destruct s.
Qed.
End Unlistable.

(** C5: the target directory holds a regular file named [Repo1].  The
    destination of [Repo1] exists, [os.listdir] raises
    [NotADirectoryError] on it, and the exception leaves the loop and
    [fetch]: [Repo1] is neither skipped nor cloned, [Repo2] and [Repo3] are
    never reached, and the run is not completed. *)
Theorem unlistable_destination_aborts_run :
  let s := Sim.start "/data" false Sim.repo1_is_a_file in
  let o := fetch _get_repositories s in
  os_path_exists (world s) (os_path_join "/data" "Repo1") = true
  ∧ present (world s) (os_path_join "/data" "Repo1") = false
  ∧ res o = Raise (OSError "NotADirectoryError" "/data/Repo1")
  ∧ runs (emitted o) = []
  ∧ logged (emitted o) = [start_log s; found_log 3]
  ∧ _processed_items (self (final o)) = 0
  ∧ _fetch_completed (self (final o)) = false.
Proof. vm_compute. repeat split. Qed.

(** ** The directory check and the empty listing *)

Section Setup.
Context {W : Type} {os : OS W}.

(** No iteration creates a directory through [os.makedirs]. *)
Lemma item_creates_no_directory region target repo (s : state W) o :
    item_run region target repo s o -> created_dirs (emitted o) = [].
  Proof.
    assert (Hq : forall o', created_dirs (callback_events o') = [])
      by (intros o'; apply callback_events_quiet).
    destruct 1; cbn [item_done item_raised emitted];
      rewrite ?created_dirs_app, ?Hq; reflexivity.
  Qed.

Lemma loop_creates_no_directory region target l (s : state W) :
    created_dirs (emitted (for_each l (fetch_item region target) s)) = [].
  Proof.
    revert l s.
    apply (for_each_item_ind region target (fun _ _ o => created_dirs (emitted o) = [])).
    - reflexivity.
    - intros r l s o1 e Hrun _. cbn [emitted].
      exact (item_creates_no_directory _ _ _ _ _ Hrun).
    - intros r l s o1 o2 Hrun _ _ IH. cbn [after emitted].
      by rewrite created_dirs_app, IH, (item_creates_no_directory _ _ _ _ _ Hrun).
  Qed.

Variable L : instance -> list string.

Lemma sync_from_creates_no_directory (s : state W) w' :
    created_dirs (emitted (sync_from L s w' [])) = [].
  Proof.
    unfold sync_from.
    pose proof (loop_creates_no_directory (region_of s) (target_directory_of s)
                  (L (self s)) (loop_start L s w')) as Hloop.
    fold (loop L s w') in Hloop.
    destruct (res (loop L s w')); cbn [emitted];
      rewrite !created_dirs_app, Hloop; reflexivity.
  Qed.

Lemma sync_from_pre (s : state W) w' pre :
    sync_from L s w' pre = after pre (sync_from L s w' []).
  Proof. unfold sync_from. by destruct (res (loop L s w')). Qed.

(** C7: before anything is listed or cloned, [fetch] looks at
    [target_directory]: when it does not exist, [os.makedirs] (which
    creates the missing parent segments with it) is called on it once and
    the creation is logged; when it exists, no directory is created; an
    exception of [os.makedirs] leaves [fetch] as it is, with nothing listed,
    logged as created or cloned. *)
Theorem target_directory_is_created_when_missing (s : state W) :
    let target_directory := target_directory_of s in
    let made := os_makedirs (world s) target_directory in
    (os_path_exists (world s) target_directory = false ->
     fst made = Ok tt ->
     emitted (fetch L s)
     = [start_log s; Makedirs target_directory; created_log s]
       ++ emitted (sync_from L s (snd made) [])
     ∧ created_dirs (emitted (fetch L s)) = [target_directory]
     ∧ res (fetch L s) = res (sync_from L s (snd made) []))
    ∧ (os_path_exists (world s) target_directory = true ->
       created_dirs (emitted (fetch L s)) = []
       ∧ emitted (fetch L s) = start_log s :: emitted (sync_from L s (world s) []))
    ∧ (forall e,
       os_path_exists (world s) target_directory = false ->
       fst made = Raise e ->
       res (fetch L s) = Raise e
       ∧ emitted (fetch L s) = [start_log s; Makedirs target_directory]
       ∧ self (final (fetch L s)) = self s
       ∧ world (final (fetch L s)) = snd made).
  Proof.
    intros target_directory made. subst made target_directory.
    rewrite fetch_eq.
    split; [|split].
    - intros -> Hmade.
      destruct (os_makedirs _ _) as [[[]|e] w']; cbn [fst snd] in *; [|discriminate].
      rewrite sync_from_pre. cbn [after emitted res].
      split; [reflexivity|]. split; [|reflexivity].
      rewrite created_dirs_app, sync_from_creates_no_directory. reflexivity.
    - intros ->. rewrite sync_from_pre. cbn [after emitted].
      split; [|reflexivity].
      rewrite created_dirs_app, sync_from_creates_no_directory. reflexivity.
    - intros e -> Hmade.
      destruct (os_makedirs _ _) as [[[]|e'] w']; cbn [fst snd] in *; [discriminate|].
      injection Hmade as ->. done.
  Qed.

(** C6: when the listing is empty (and has been reached: the target
    directory exists or could be created), [fetch] sets [_total_items] to
    0, invokes no clone and returns with [_fetch_completed] set. *)
Theorem empty_listing_completes (s : state W) :
    L (self s) = [] ->
    (os_path_exists (world s) (target_directory_of s) = true
     ∨ fst (os_makedirs (world s) (target_directory_of s)) = Ok tt) ->
    let o := fetch L s in
    res o = Ok tt
    ∧ _total_items (self (final o)) = 0
    ∧ runs (emitted o) = []
    ∧ progress_calls (emitted o) = []
    ∧ _processed_items (self (final o)) = _processed_items (self s)
    ∧ _fetch_completed (self (final o)) = true.
  Proof.
    intros HL Hsetup o. subst o. rewrite fetch_eq.
    assert (Hsync : forall w' pre,
      runs pre = [] -> progress_calls pre = [] ->
      let o := sync_from L s w' pre in
      res o = Ok tt
      ∧ _total_items (self (final o)) = 0
      ∧ runs (emitted o) = []
      ∧ progress_calls (emitted o) = []
      ∧ _processed_items (self (final o)) = _processed_items (self s)
      ∧ _fetch_completed (self (final o)) = true).
    { intros w' pre Hruns Hcalls. unfold sync_from, loop, loop_start. rewrite HL.
      cbn. rewrite !runs_app, !progress_calls_app, Hruns, Hcalls. done. }
    destruct (os_path_exists _ _) eqn:Hex.
    - by apply Hsync.
    - destruct Hsetup as [?|Hmade]; [discriminate|].
      destruct (os_makedirs _ _) as [[[]|e] w']; cbn [fst] in Hmade; [|discriminate].
      by apply Hsync.
  Qed.
End Setup.

Lemma target_directory_is_created_when_missing_witness :
  created_dirs (emitted (fetch _get_repositories (Sim.start "/data" false Sim.blank)))
    = ["/data"]
  ∧ created_dirs (emitted (fetch _get_repositories (Sim.start "/data" false Sim.synced)))
    = []
  ∧ res (fetch _get_repositories (Sim.start "/data" false Sim.locked))
    = Raise (OSError "PermissionError" "/data")
  ∧ emitted (fetch _get_repositories (Sim.start "/data" false Sim.locked))
    = [start_log (Sim.start "/data" false Sim.locked); Makedirs "/data"].
Proof.
  split; [|split].
  - destruct (target_directory_is_created_when_missing _get_repositories
                (Sim.start "/data" false Sim.blank)) as (Hcreate & _ & _).
    destruct Hcreate as (_ & Hdirs & _); [vm_compute; reflexivity ..|].
    exact Hdirs.
  - destruct (target_directory_is_created_when_missing _get_repositories
                (Sim.start "/data" false Sim.synced)) as (_ & Hkeep & _).
    destruct Hkeep as (Hdirs & _); [vm_compute; reflexivity|].
    exact Hdirs.
  - destruct (target_directory_is_created_when_missing _get_repositories
                (Sim.start "/data" false Sim.locked)) as (_ & _ & Hfail).
    destruct (Hfail (OSError "PermissionError" "/data")) as (Hres & Hevs & _);
      [vm_compute; reflexivity ..|].
    split; [exact Hres | exact Hevs].
Defined.

Lemma empty_listing_completes_witness :
  let o := fetch (fun _ => []) (Sim.start "/data" true Sim.blank) in
  res o = Ok tt
  ∧ _total_items (self (final o)) = 0
  ∧ runs (emitted o) = []
  ∧ progress_calls (emitted o) = []
  ∧ _processed_items (self (final o)) = 0
  ∧ _fetch_completed (self (final o)) = true.
Proof.
  apply (empty_listing_completes (fun _ => []) (Sim.start "/data" true Sim.blank)).
  - reflexivity.
  - right. vm_compute. reflexivity.
Defined.

(** ** The progress callback *)

Section Progress.
Context {W : Type} {os : OS W}.





Variable L : instance -> list string.



End Progress.


(** ** The credentials *)

Section Credentials.
Context {W : Type} {os : OS W}.

Lemma item_run_with_params region target repo p (s : state W) o :
    item_run region target repo s o ->
    item_run region target repo (with_params p s) (relabel p o).
  Proof.
    destruct 1.
    - exact (run_skip region target repo (with_params p s) H).
    - exact (run_unlistable region target repo (with_params p s) e H H0).
    - exact (run_cloned region target repo (with_params p s) out err w' H H0).
    - exact (run_failed region target repo (with_params p s) rc out err text w' H H0 H1 H2).
    - exact (run_failed_undecodable region target repo (with_params p s)
               rc out err e w' H H0 H1 H2).
    - exact (run_not_started region target repo (with_params p s) kind filename w' H H0).
  Qed.

Lemma fetch_item_with_params region target repo p (s : state W) :
    fetch_item region target repo (with_params p s)
    = relabel p (fetch_item region target repo s).
  Proof.
    apply fetch_item_is, item_run_with_params, fetch_item_run.
  Qed.

Lemma loop_with_params region target l p (s : state W) :
    for_each l (fetch_item region target) (with_params p s)
    = relabel p (for_each l (fetch_item region target) s).
  Proof.
    revert s. induction l as [|r l IH]; intros s; [reflexivity|].
    cbn [for_each]. unfold bind. rewrite fetch_item_with_params.
    cbn [relabel res final emitted].
    destruct (res (fetch_item region target r s)) as [[]|e]; [|reflexivity].
    by rewrite IH.
  Qed.

Variable L : instance -> list string.
Hypothesis L_ignores_params : forall p o, L (set_params p o) = L o.

Lemma fetch_with_params p (s : state W) :
    region_of (with_params p s) = region_of s ->
    target_directory_of (with_params p s) = target_directory_of s ->
    fetch L (with_params p s) = relabel p (fetch L s).
  Proof.
    intros Hregion Htarget.
    assert (Hsync : forall w' pre,
      sync_from L (with_params p s) w' pre = relabel p (sync_from L s w' pre)).
    { intros w' pre. unfold sync_from, loop. rewrite Hregion, Htarget.
      cbn [with_params self]. rewrite L_ignores_params.
      change (loop_start L (with_params p s) w')
        with {| self := set_total_items (Z.of_nat (length (L (set_params p (self s)))))
                          (set_params p (self s));
                world := w' |}.
      rewrite L_ignores_params.
      change {| self := set_total_items (Z.of_nat (length (L (self s))))
                          (set_params p (self s));
                world := w' |}
        with (with_params p (loop_start L s w')).
      rewrite loop_with_params. cbn [relabel res].
      destruct (res (for_each _ _ _)) as [[]|e]; reflexivity. }
    rewrite !fetch_eq. rewrite Htarget.
    unfold start_log, created_log. rewrite Hregion, Htarget.
    cbn [with_params world].
    destruct (os_path_exists _ _); [apply Hsync|].
    destruct (os_makedirs _ _) as [[[]|e] w']; [apply Hsync|reflexivity].
  Qed.
End Credentials.

Section CredentialsOfTheSource.
Context {W : Type} {os : OS W}.

(** C8: [access_key] and [secret_key] have no influence on [fetch].  Two
    runs from the same object and outside, with parameter dictionaries
    that differ at most on these two keys, list the same repositories,
    end the same way and emit the same events (so the same clone URLs,
    clones and skips, in the same order); they leave the same outside and
    the same counters. *)
Theorem credentials_do_not_influence_fetch (s : state W) (p' : gmap string string) :
    (forall k, k ≠ "access_key" -> k ≠ "secret_key" -> p' !! k = params (self s) !! k) ->
    let o := fetch _get_repositories s in
    let o' := fetch _get_repositories (with_params p' s) in
    _get_repositories (self (with_params p' s)) = _get_repositories (self s)
    ∧ res o' = res o
    ∧ emitted o' = emitted o
    ∧ runs (emitted o') = runs (emitted o)
    ∧ world (final o') = world (final o)
    ∧ self (final o') = set_params p' (self (final o)).
  Proof.
    intros Hp o o'. subst o o'.
    rewrite (fetch_with_params _get_repositories (fun _ _ => eq_refl) p' s).
    - generalize (fetch _get_repositories s). intros o.
      repeat split.
    - unfold region_of. cbn. by rewrite Hp.
    - unfold target_directory_of. cbn. by rewrite Hp.
  Qed.
End CredentialsOfTheSource.

Lemma credentials_do_not_influence_fetch_witness :
  let s := Sim.start "/data" true Sim.repo2_denied in
  let p' := <["access_key" := "AKIAOTHER"]> (delete "secret_key" (params (self s))) in
  p' !! "access_key" ≠ params (self s) !! "access_key"
  ∧ p' !! "secret_key" ≠ params (self s) !! "secret_key"
  ∧ emitted (fetch _get_repositories (with_params p' s))
    = emitted (fetch _get_repositories s).
Proof.
  intros s p'.
  split; [vm_compute; discriminate|].
  split; [vm_compute; discriminate|].
  apply (credentials_do_not_influence_fetch s p').
  intros k Hak Hsk. subst p'.
  rewrite lookup_insert_ne by done.
  by rewrite lookup_delete_ne.
Defined.

(** ** Calling [fetch] again on the same object *)

Section Repeated.
Context {W : Type} {os : OS W}.
Variable L : instance -> list string.

Lemma fetch_times_counters (N : nat) (k : nat) (s : state W) :
    (forall o, length (L o) = N) ->
    let o := fetch_times L k s in
    res o = Ok tt ->
    _processed_items (self (final o))
      = _processed_items (self s) + Z.of_nat k * Z.of_nat N
    ∧ (k ≠ 0%nat -> _total_items (self (final o)) = Z.of_nat N).
  Proof.
    intros HN. cbv zeta. induction k as [|k IH].
    - intros _. cbn. split; [lia | done].
    - cbn [fetch_times].
      destruct (res (fetch_times L k s)) as [[]|e] eqn:Hk.
      + cbn [after res final]. intros Hres.
        destruct (fetch_counters L _ Hres) as (Hp & Ht & _).
        destruct IH as [IHp _]; [done|].
        rewrite Hp, Ht, IHp, HN. split; [lia | done].
      + rewrite Hk. discriminate.
  Qed.

(** C9: [fetch] does not reset [_processed_items] or
    [_total_processing_time] when it starts (it adds to the values it
    finds), while it overwrites [_total_items] with the length of the
    current listing.  So after k calls on a freshly constructed object,
    each over a listing of N identifiers and each returning,
    [_processed_items] is k*N, and [_total_items] is N as soon as there
    was a call. *)
Theorem repeated_fetch_accumulates (N : nat) (k : nat) (base : instance) (w : W) :
    (forall o, length (L o) = N) ->
    (forall s : state W,
        res (fetch L s) = Ok tt ->
        _processed_items (self (final (fetch L s)))
          = _processed_items (self s) + Z.of_nat N
        ∧ (∃ elapsed : list Q,
              length elapsed = N
              ∧ _total_processing_time (self (final (fetch L s)))
                = fold_left Qplus elapsed (_total_processing_time (self s)))
        ∧ _total_items (self (final (fetch L s))) = Z.of_nat N)
    ∧ (let o := fetch_times L k {| self := __init__ base; world := w |} in
       res o = Ok tt ->
       _processed_items (self (final o)) = Z.of_nat k * Z.of_nat N
       ∧ (k ≠ 0%nat -> _total_items (self (final o)) = Z.of_nat N)).
  Proof.
    intros HN. split.
    - intros s Hres.
      destruct (fetch_counters L s Hres) as (Hp & Ht & _ & els & Hlen & Htime).
      rewrite HN in *. eauto.
    - intros o Hres.
      destruct (fetch_times_counters N k _ HN Hres) as [Hp Ht].
      split; [|exact Ht]. subst o. rewrite Hp. cbn. lia.
  Qed.
End Repeated.

Lemma repeated_fetch_accumulates_witness :
  let o := fetch_times _get_repositories 2 (Sim.start "/data" false Sim.repo2_denied) in
  res o = Ok tt
  ∧ _processed_items (self (final o)) = 6
  ∧ _total_items (self (final o)) = 3.
Proof.
  intros o.
  assert (Hres : res o = Ok tt) by (vm_compute; reflexivity).
  split; [exact Hres|].
  destruct (repeated_fetch_accumulates _get_repositories 3 2
              (Sim.datasource "/data" false) Sim.repo2_denied (fun _ => eq_refl))
    as [_ Hk].
  destruct (Hk Hres) as [Hp Ht].
  split; [exact Hp | by apply Ht].
Defined.

(** ** [get_bybit_p2p_opportunities] *)

Section BybitProperties.
Import Bybit.
Variable repr_other : json -> string.

Lemma py_get_cases v key dflt :
  (∃ fields, v = JObj fields ∧ py_get v key dflt = Ok (default dflt (dict_lookup key fields)))
  ∨ ((forall fields, v ≠ JObj fields)
     ∧ py_get v key dflt = Raise (AttributeError (type_name v) "get")).
Proof. destruct v; cbn; eauto; right; split; try done; intros; discriminate. Qed.

(** The three ways the query ends: a value without a printed line, the
    empty list with one printed line, or an [AttributeError] of a [.get]
    on a payload that is not an object where one is expected. *)
Lemma query_cases (net : request -> http_outcome)
      (base_currency trade_type fiat_currency : string) :
  let r := get_bybit_p2p_opportunities repr_other net base_currency trade_type fiat_currency in
  (∃ v, r = (Ok v, []))
  ∨ (∃ line, r = (Ok (JArr []), [line]))
  ∨ (∃ t, r = (Raise (AttributeError t "get"), [])).
Proof.
  cbv zeta.
  unfold get_bybit_p2p_opportunities, try_block, requests_get, response_json.
  destruct (net _) as [cls msg|resp]; cbn; [right; left; eauto|].
  destruct (raise_for_status resp) as [[]|e] eqn:Hstatus; cbn.
  - destruct (body resp) as [msg|data]; cbn; [right; left; eauto|].
    destruct data; cbn; try (right; right; eauto; fail).
    destruct (equals_zero _); cbn; [|right; left; eauto].
    destruct (default (JObj []) (dict_lookup "result" fields)); cbn;
      try (right; right; eauto; fail).
    left. eauto.
  - unfold raise_for_status in Hstatus.
    destruct (_ && _); [injection Hstatus as <-; cbn; right; left; eauto|].
    destruct (_ && _); [injection Hstatus as <-; cbn; right; left; eauto|discriminate].
Qed.

(** No exception of the HTTP request leaves the query, and each of them
    makes it return the empty list. *)
Lemma query_lets_no_request_exception_out (net : request -> http_outcome)
      (base_currency trade_type fiat_currency : string) :
  let rq := the_request base_currency trade_type fiat_currency in
  let returned :=
    fst (get_bybit_p2p_opportunities repr_other net base_currency trade_type fiat_currency) in
  (forall cls msg, returned ≠ Raise (RequestException cls msg))
  ∧ (forall cls msg, net rq = Failed cls msg -> returned = Ok (JArr []))
  ∧ (forall r e, net rq = Responded r -> raise_for_status r = Raise e ->
                 returned = Ok (JArr []))
  ∧ (forall r msg, net rq = Responded r -> raise_for_status r = Ok tt ->
                   body r = NotJson msg -> returned = Ok (JArr [])).
Proof.
  intros rq returned. subst returned. split.
  - intros cls msg.
    destruct (query_cases net base_currency trade_type fiat_currency)
      as [(v & ->)|[(line & ->)|(t & ->)]]; discriminate.
  - unfold get_bybit_p2p_opportunities, try_block, requests_get, response_json. fold rq.
    repeat split.
    + intros cls msg ->. reflexivity.
    + intros r e -> Hstatus. rewrite Hstatus.
      unfold raise_for_status in Hstatus.
      destruct (_ && _); [injection Hstatus as <-; reflexivity|].
      destruct (_ && _); [injection Hstatus as <-; reflexivity|discriminate].
    + intros r msg -> -> ->. reflexivity.
Qed.

(** On a payload that follows the schema the query returns a list: the
    [items] (or the empty list when [result] or [items] is not there) for a
    [ret_code] equal to 0, and the empty list for any other. *)
Lemma query_returns_a_list_on_the_schema (net : request -> http_outcome)
      (base_currency trade_type fiat_currency : string) r data :
  let rq := the_request base_currency trade_type fiat_currency in
  let returned :=
    fst (get_bybit_p2p_opportunities repr_other net base_currency trade_type fiat_currency) in
  net rq = Responded r ->
  raise_for_status r = Ok tt ->
  body r = Json data ->
  follows_schema data = true ->
  (∃ l, returned = Ok (JArr l))
  ∧ (forall code, py_get data "ret_code" JNull = Ok code ->
                  equals_zero code = false -> returned = Ok (JArr []))
  ∧ (forall code res_, py_get data "ret_code" JNull = Ok code ->
                       equals_zero code = true ->
                       py_get data "result" (JObj []) = Ok res_ ->
                       returned = py_get res_ "items" (JArr [])).
Proof.
  intros rq returned Hnet Hstatus Hbody Hschema. subst returned.
  unfold get_bybit_p2p_opportunities, try_block, requests_get, response_json. fold rq.
  rewrite Hnet, Hstatus, Hbody.
  destruct data as [| | | | | |fields]; try discriminate.
  cbn [py_get follows_schema] in *.
  revert Hschema.
  destruct (equals_zero (default JNull (dict_lookup "ret_code" fields))) eqn:Hzero.
  - destruct (dict_lookup "result" fields) as [[| | | | | |inner]|] eqn:Hresult;
      cbn [default py_get]; intros Hschema; try discriminate Hschema.
    + revert Hschema.
      destruct (dict_lookup "items" inner) as [[| | | | |l|]|] eqn:Hitems;
        intros Hschema; try discriminate Hschema; cbn; rewrite Hitems; cbn.
      * split; [eauto|]. split; [intros code [= <-]; congruence|].
        intros code res_ [= <-] _ [= <-]. cbn. by rewrite Hitems.
      * split; [eauto|]. split; [intros code [= <-]; congruence|].
        intros code res_ [= <-] _ [= <-]. cbn. by rewrite Hitems.
    + cbn. split; [eauto|]. split; [intros code [= <-]; congruence|].
      intros code res_ [= <-] _ [= <-]. reflexivity.
  - intros _. cbn. split; [eauto|]. split; [done|].
    intros code res_ [= <-]. congruence.
Qed.

(** C10: the query does not always return a list.  On a 200 response
    whose JSON has [ret_code] 0 and [null] under [result], the second
    [.get] is called on [None]: an [AttributeError], which the [except]
    clause does not catch, leaves the function.  With [null] under [items]
    the function returns [None].  A body that is JSON but not an object
    ends with an [AttributeError] too. *)
Theorem null_in_the_payload_breaks_the_list_result :
  fst (get_bybit_p2p_opportunities repr_other (answering result_null) "USDT" "SELL" "USD")
  = Raise (AttributeError "NoneType" "get")
  ∧ fst (get_bybit_p2p_opportunities repr_other (answering items_null) "USDT" "SELL" "USD")
    = Ok JNull
  ∧ fst (get_bybit_p2p_opportunities repr_other (answering (JArr [])) "USDT" "SELL" "USD")
    = Raise (AttributeError "list" "get")
  ∧ ¬ (forall net base_currency trade_type fiat_currency,
          ∃ l, fst (get_bybit_p2p_opportunities repr_other net
                      base_currency trade_type fiat_currency) = Ok (JArr l)).
Proof.
  split; [reflexivity|]. split; [reflexivity|]. split; [reflexivity|].
  intros Hlist.
  destruct (Hlist (answering result_null) "USDT" "SELL" "USD") as (l & Hl).
  discriminate Hl.
Qed.
End BybitProperties.

Lemma query_returns_a_list_on_the_schema_example :
  fst (Bybit.get_bybit_p2p_opportunities Bybit.no_repr (Bybit.answering Bybit.one_offer)
         "USDT" "sell" "USD")
  = Ok (Bybit.JArr [Bybit.JObj [("nickName", Bybit.JStr "trader-1")]]).
Proof.
  destruct (query_returns_a_list_on_the_schema Bybit.no_repr
              (Bybit.answering Bybit.one_offer) "USDT" "sell" "USD"
              _ Bybit.one_offer eq_refl eq_refl eq_refl eq_refl) as (_ & _ & Hitems).
  exact (Hitems _ _ eq_refl eq_refl eq_refl).
Defined.

Example get_bybit_p2p_opportunities_samples :
  Bybit.query (Bybit.the_request "USDT" "sell" "USD")
  = [("userId", Bybit.PStr ""); ("tokenId", Bybit.PStr "USDT");
     ("currencyId", Bybit.PStr "USD"); ("side", Bybit.PStr "SELL");
     ("size", Bybit.PInt 10); ("page", Bybit.PInt 1)]
  ∧ Bybit.get_bybit_p2p_opportunities Bybit.no_repr Bybit.unreachable "USDT" "SELL" "USD"
    = (Ok (Bybit.JArr []), ["HTTP request failed: Max retries exceeded"])
  ∧ Bybit.get_bybit_p2p_opportunities Bybit.no_repr
      (Bybit.answering Bybit.params_error) "USDT" "SELL" "USD"
    = (Ok (Bybit.JArr []), ["Error from API: params error"]).
Proof. repeat split. Qed.

(** * Further properties *)

(** ** Displaying an offer *)

Section DisplayKeys.
Import Cli.

(** X2: Keys that an offer does not have are shown as "N/A", and an offer
    without [payMethods] has an empty list of payment methods; keys that
    the display does not read make no difference. *)
Theorem missing_keys_are_shown_as_not_available (opp : offer) :
  scalars opp !! "nickname" = None ->
  scalars opp !! "price" = None ->
  scalars opp !! "currency" = None ->
  scalars opp !! "quantity" = None ->
  scalars opp !! "token" = None ->
  payMethods opp = None ->
  offer_lines opp
  = [ "Trader: N/A"; "Price: N/A N/A"; "Quantity Available: N/A N/A";
      "Payment Methods: "; "----------------------------------------" ].
Proof.
  intros Hn Hp Hc Hq Ht Hm. unfold offer_lines, dict_get.
  by rewrite Hn, Hp, Hc, Hq, Ht, Hm.
Qed.
End DisplayKeys.

Lemma missing_keys_are_shown_as_not_available_witness :
  Cli.offer_lines {| Cli.scalars := {[ "advertiser" := "bob" ]}; Cli.payMethods := None |}
  = [ "Trader: N/A"; "Price: N/A N/A"; "Quantity Available: N/A N/A";
      "Payment Methods: "; "----------------------------------------" ].
Proof.
  apply (missing_keys_are_shown_as_not_available
           {| Cli.scalars := {[ "advertiser" := "bob" ]}; Cli.payMethods := None |});
    reflexivity.
Defined.

(** ** What the query prints *)

Section Script.
Import Bybit.
Variable repr_other : json -> string.

(** X4: [get_bybit_p2p_opportunities] prints at most one line.  It prints
    one exactly when it gives up (error code from the API or a
    [RequestException]), and what it returns then is the empty list: a
    non-empty result never comes with an error line. *)
Theorem an_error_line_comes_with_the_empty_list
        (net : request -> http_outcome)
        (base_currency trade_type fiat_currency : string) :
  let r := get_bybit_p2p_opportunities repr_other net base_currency trade_type fiat_currency in
  (length (snd r) <= 1)%nat
  ∧ (snd r ≠ [] -> fst r = Ok (JArr []))
  ∧ (forall x l, fst r = Ok (JArr (x :: l)) -> snd r = []).
Proof.
  cbv zeta.
  destruct (query_cases repr_other net base_currency trade_type fiat_currency)
    as [(v & ->)|[(line & ->)|(t & ->)]]; cbn [fst snd length].
  - split; [lia|]. split; [done|]. done.
  - split; [lia|]. split; [done|]. discriminate.
  - split; [lia|]. split; [done|]. done.
Qed.

Lemma upper_ascii_idempotent c : upper_ascii (upper_ascii c) = upper_ascii c.
Proof.
  unfold upper_ascii.
  destruct (N.leb 97 (N_of_ascii c) && N.leb (N_of_ascii c) 122) eqn:Hc; [|by rewrite Hc].
  apply andb_prop in Hc as [Hlo Hhi].
  apply N.leb_le in Hlo, Hhi.
  rewrite N_ascii_embedding by lia.
  destruct (N.leb 97 (N_of_ascii c - 32)) eqn:Hlo'; [|reflexivity].
  apply N.leb_le in Hlo'. cbn [andb].
  destruct (N.leb (N_of_ascii c - 32) 122) eqn:Hhi'; [|reflexivity].
  lia.
Qed.

Lemma upper_idempotent s : upper (upper s) = upper s.
Proof.
  induction s as [|c s IH]; [reflexivity|].
  cbn [upper]. by rewrite upper_ascii_idempotent, IH.
Qed.

(** X5: The letter case of [trade_type] makes no difference to the query:
    the request carries it in upper case. *)
Theorem trade_type_case_is_ignored
        (net : request -> http_outcome)
        (base_currency trade_type fiat_currency : string) :
  get_bybit_p2p_opportunities repr_other net base_currency (upper trade_type) fiat_currency
  = get_bybit_p2p_opportunities repr_other net base_currency trade_type fiat_currency.
Proof.
  unfold get_bybit_p2p_opportunities, the_request. by rewrite upper_idempotent.
Qed.
End Script.

Lemma an_error_line_comes_with_the_empty_list_witness :
  Bybit.get_bybit_p2p_opportunities Bybit.no_repr Bybit.unreachable "USDT" "SELL" "USD"
  = (Ok (Bybit.JArr []), ["HTTP request failed: Max retries exceeded"])
  ∧ snd (Bybit.get_bybit_p2p_opportunities Bybit.no_repr
           (Bybit.answering Bybit.one_offer) "USDT" "SELL" "USD") = [].
Proof.
  split; [reflexivity|].
  destruct (an_error_line_comes_with_the_empty_list Bybit.no_repr
              (Bybit.answering Bybit.one_offer) "USDT" "SELL" "USD") as (_ & _ & Hquiet).
  exact (Hquiet _ [] eq_refl).
Defined.

(** ** More about [fetch] *)

Section MoreSelecting.
Lemma info_logged_app evs evs' : info_logged (evs ++ evs') = info_logged evs ++ info_logged evs'.
Proof. apply omap_app. Qed.

Lemma callback_events_not_logged o :
  info_logged (callback_events o) = [].
Proof. unfold callback_events. by destruct (progress_callback o). Qed.
End MoreSelecting.

Section ItemFacts.
Context {W : Type} {os : OS W}.
Variables region target : string.

(** Everything the later statements need to know about one iteration. *)
Lemma item_run_facts repo (s : state W) o :
  item_run region target repo s o ->
  name (self (final o)) = name (self s)
  ∧ params (self (final o)) = params (self s)
  ∧ progress_callback (self (final o)) = progress_callback (self s)
  ∧ _total_items (self (final o)) = _total_items (self s)
  ∧ _fetch_completed (self (final o)) = _fetch_completed (self s)
  ∧ (runs (emitted o) = [] ∨ runs (emitted o) = [clone_args region target repo])
  ∧ (progress_callback (self s) = false -> progress_calls (emitted o) = [])
  ∧ match res o with
    | Ok _ =>
      _processed_items (self (final o)) = _processed_items (self s) + 1
      ∧ (info_logged (emitted o) = [skip_log repo]
         ∨ info_logged (emitted o) = [cloning_log region repo])
    | Raise e =>
      _processed_items (self (final o)) = _processed_items (self s)
      ∧ ((∃ path, os_listdir (world s) path = Raise e)
         ∨ (∃ bs, e = UnicodeDecodeError bs)
         ∨ is_os_error e)
    end.
Proof.
  assert (Hq : forall o', runs (callback_events o') = []
                          ∧ info_logged (callback_events o') = [])
    by (intros o'; split; [apply callback_events_quiet | apply callback_events_not_logged]).
  assert (Hcb : forall el, progress_callback (self s) = false ->
                           callback_events (bump el (self s)) = []).
  { intros el H. unfold callback_events. cbn. by rewrite H. }
  destruct 1; cbn [item_done item_raised res final self world emitted];
    repeat (split; [done|]).
  all: rewrite ?runs_app, ?info_logged_app, ?progress_calls_app.
  all: repeat match goal with
       | |- context [runs (callback_events ?o')] => rewrite (proj1 (Hq o'))
       | |- context [info_logged (callback_events ?o')] => rewrite (proj2 (Hq o'))
       end.
  - split; [by left|]. split; [intros Hno; by rewrite Hcb|]. split; [done | by left].
  - split; [by left|]. split; [done|]. split; [done|]. left. eauto.
  - split; [by right|]. split; [intros Hno; by rewrite Hcb|]. split; [done | by right].
  - split; [by right|]. split; [intros Hno; by rewrite Hcb|]. split; [done | by right].
  - split; [by right|]. split; [done|]. split; [done|].
    right. left. unfold decode in *. destruct (utf8_valid err); [discriminate|].
    match goal with H : Raise _ = Raise _ |- _ => injection H as <- end. eauto.
  - split; [by right|]. split; [done|]. split; [done|].
    right. right. unfold is_os_error. eauto.
Qed.
End ItemFacts.

Section LoopFacts.
Context {W : Type} {os : OS W}.
Variables region target : string.

Lemma loop_has_facts l (s : state W) :
  loop_facts region target l s (for_each l (fetch_item region target) s).
Proof.
  revert l s. apply (for_each_item_ind region target (loop_facts region target)).
  - intros s. unfold loop_facts. cbn.
    repeat split; try done; try lia; constructor.
  - intros r l s o1 e Hrun Hres.
    destruct (item_run_facts _ _ _ _ _ Hrun)
      as (Hn & Hp & Hc & Ht & Hf & Hruns & Hcalls & Hres').
    rewrite Hres in Hres'. destruct Hres' as [Hcount Hexn].
    unfold loop_facts. cbn [res final emitted length map].
    do 5 (split; [done|]). split; [|split; [done|split; [lia|]]].
    + destruct Hruns as [->| ->]; [apply sublist_nil_l|].
      apply sublist_skip, sublist_nil_l.
    + destruct Hexn as [(path & Hls)|[?|?]]; eauto.
  - intros r l s o1 o2 Hrun Hres _ IH.
    destruct (item_run_facts _ _ _ _ _ Hrun)
      as (Hn & Hp & Hc & Ht & Hf & Hruns & Hcalls & Hres').
    rewrite Hres in Hres'. destruct Hres' as [Hcount Hlogs].
    destruct IH as (Hn2 & Hp2 & Hc2 & Ht2 & Hf2 & Hruns2 & Hcalls2 & Hcount2 & Hres2).
    unfold loop_facts. cbn [after res final emitted length map].
    split; [congruence|]. split; [congruence|]. split; [congruence|].
    split; [congruence|]. split; [congruence|].
    rewrite runs_app, progress_calls_app, info_logged_app.
    split; [|split; [|split; [lia|]]].
    + destruct Hruns as [->| ->]; cbn [app].
      * by apply sublist_cons.
      * by apply sublist_skip.
    + intros Hno. rewrite Hcalls by done. rewrite Hcalls2 by congruence. done.
    + destruct (res o2) as [[]|e]; [|done].
      destruct Hlogs as [->| ->]; cbn [app]; constructor; eauto.
Qed.
End LoopFacts.

Section FetchFacts.
Context {W : Type} {os : OS W}.
Variable L : instance -> list string.

(** A run either stops at [os.makedirs] or goes on to [sync_from]. *)
Lemma fetch_shape (s : state W) :
  (∃ e w',
      os_path_exists (world s) (target_directory_of s) = false
      ∧ os_makedirs (world s) (target_directory_of s) = (Raise e, w')
      ∧ fetch L s = {| res := Raise e; final := {| self := self s; world := w' |};
                       emitted := [start_log s; Makedirs (target_directory_of s)] |})
  ∨ (∃ w' pre,
        fetch L s = sync_from L s w' pre
        ∧ (pre = [start_log s]
           ∨ pre = [start_log s; Makedirs (target_directory_of s); created_log s])).
Proof.
  rewrite fetch_eq.
  destruct (os_path_exists _ _) eqn:Hex; [right; eauto|].
  destruct (os_makedirs _ _) as [[[]|e] w'] eqn:Hmk; [right; eauto|].
  left. eauto 6.
Qed.

Lemma sync_from_loop_facts (s : state W) w' :
  loop_facts (region_of s) (target_directory_of s) (L (self s))
             (loop_start L s w') (loop L s w').
Proof. apply loop_has_facts. Qed.

(** X7: [fetch] never changes the name, the parameters or the registered
    callback of the object, however it ends. *)
Theorem fetch_keeps_the_settings (s : state W) :
  name (self (final (fetch L s))) = name (self s)
  ∧ params (self (final (fetch L s))) = params (self s)
  ∧ progress_callback (self (final (fetch L s))) = progress_callback (self s).
Proof.
  destruct (fetch_shape s) as [(e & w' & _ & _ & ->)|(w' & pre & -> & _)]; [done|].
  destruct (sync_from_loop_facts s w') as (Hn & Hp & Hc & _).
  unfold sync_from. destruct (res (loop L s w')); cbn in *; done.
Qed.

(** X8: [_fetch_completed] is set when [fetch] returns and only then: a run
    that raises leaves the flag as it found it, so a flag set by an earlier
    run is still set after a later run that failed. *)
Theorem fetch_completed_is_set_only_on_return (s : state W) :
  _fetch_completed (self (final (fetch L s)))
  = match res (fetch L s) with
    | Ok _ => true
    | Raise _ => _fetch_completed (self s)
    end.
Proof.
  destruct (fetch_shape s) as [(e & w' & _ & _ & ->)|(w' & pre & -> & _)]; [done|].
  destruct (sync_from_loop_facts s w') as (_ & _ & _ & _ & Hf & _).
  unfold sync_from. destruct (res (loop L s w')); cbn in *; done.
Qed.

(** X9: However [fetch] ends, [_processed_items] has not gone down and has
    gone up by at most the number of listed identifiers. *)
Theorem processed_items_moves_within_the_listing (s : state W) :
  _processed_items (self s) <= _processed_items (self (final (fetch L s)))
  <= _processed_items (self s) + Z.of_nat (length (L (self s))).
Proof.
  destruct (fetch_shape s) as [(e & w' & _ & _ & ->)|(w' & pre & -> & _)]; [cbn; lia|].
  destruct (sync_from_loop_facts s w') as (_ & _ & _ & _ & _ & _ & _ & Hb & _).
  unfold sync_from. destruct (res (loop L s w')); cbn in *; lia.
Qed.

Lemma runs_of_fetch (s : state W) :
  sublist (runs (emitted (fetch L s)))
          (map (clone_args (region_of s) (target_directory_of s)) (L (self s))).
Proof.
  destruct (fetch_shape s) as [(e & w' & _ & _ & ->)|(w' & pre & -> & Hpre)];
    [apply sublist_nil_l|].
  destruct (sync_from_loop_facts s w') as (_ & _ & _ & _ & _ & Hruns & _).
  assert (Hquiet : runs pre = []) by (destruct Hpre as [->| ->]; reflexivity).
  unfold sync_from. destruct (res (loop L s w')); cbn [emitted];
    rewrite !runs_app, Hquiet; cbn; by rewrite ?app_nil_r.
Qed.

Lemma os_path_join_cases a b :
  (startswith_sep b = true -> os_path_join a b = b)
  ∧ (startswith_sep b = false ->
     os_path_join a b = a +:+ b ∨ os_path_join a b = a +:+ "/" +:+ b).
Proof.
  unfold os_path_join. destruct (startswith_sep b); split; try done.
  intros _. destruct (_ || _); eauto.
Qed.

(** X10: The only commands [fetch] runs are [git clone] of listed identifiers:
    the invocations are, in listing order and at most once each, among the
    commands made from the region, the target directory and an identifier
    of the listing.  The destination of each is the target directory
    followed by the identifier, with one "/" between them at most, unless
    the identifier starts with "/": then the destination is the identifier
    alone, outside the target directory. *)
Theorem fetch_runs_only_clones_of_listed_identifiers (s : state W) :
  sublist (runs (emitted (fetch L s)))
          (map (clone_args (region_of s) (target_directory_of s)) (L (self s)))
  ∧ Forall (fun args =>
              ∃ r dest,
                r ∈ L (self s)
                ∧ args = ["git"; "clone"; clone_url_of (region_of s) r; dest]
                ∧ (startswith_sep r = true -> dest = r)
                ∧ (startswith_sep r = false ->
                   dest = target_directory_of s +:+ r
                   ∨ dest = target_directory_of s +:+ "/" +:+ r))
           (runs (emitted (fetch L s))).
Proof.
  split; [apply runs_of_fetch|].
  apply Forall_forall. intros args Hin.
  pose proof (elem_of_sublist _ _ _ Hin (runs_of_fetch s)) as Hlisted.
  apply list_elem_of_In, in_map_iff in Hlisted as (r & <- & Hr).
  exists r, (os_path_join (target_directory_of s) r).
  split; [by apply list_elem_of_In|]. split; [reflexivity|].
  apply os_path_join_cases.
Qed.

(** X12: Without a registered callback no progress call is made. *)
Theorem no_callback_no_progress_call (s : state W) :
  progress_callback (self s) = false ->
  progress_calls (emitted (fetch L s)) = [].
Proof.
  intros Hno.
  destruct (fetch_shape s) as [(e & w' & _ & _ & ->)|(w' & pre & -> & Hpre)]; [done|].
  destruct (sync_from_loop_facts s w') as (_ & _ & _ & _ & _ & _ & Hcalls & _).
  assert (Hquiet : progress_calls pre = []) by (destruct Hpre as [->| ->]; reflexivity).
  unfold sync_from. destruct (res (loop L s w')); cbn [emitted];
    rewrite !progress_calls_app, Hquiet, (Hcalls Hno); reflexivity.
Qed.

End FetchFacts.

Lemma no_callback_no_progress_call_witness :
  progress_calls (emitted (fetch _get_repositories (Sim.start "/data" false Sim.blank))) = [].
Proof.
  apply (no_callback_no_progress_call _get_repositories (Sim.start "/data" false Sim.blank)).
  reflexivity.
Defined.


(** ** Diagnostics, destinations and parameters *)

Section Diagnostics.
Context {W : Type} {os : OS W}.

Lemma utf8_valid_ascii bs : is_ascii bs = true -> utf8_valid bs = true.
Proof.
  unfold is_ascii. induction bs as [|b bs IH]; [reflexivity|].
  cbn [forallb]. intros Hb. apply andb_prop in Hb as [Hb Hbs].
  cbn [utf8_valid]. rewrite Hb. by apply IH.
Qed.

(** X15: A failed clone whose diagnostic output is plain ASCII never stops the
    loop: the output is logged at error level byte for byte, the
    identifier is counted, and the loop goes on with the next one. *)
Theorem ascii_diagnostics_are_logged_and_passed
        region target repo l (s : state W) rc out err w' :
  missing_or_empty (world s) (os_path_join target repo) = true ->
  subprocess_run (world s) (clone_args region target repo) = (Exited rc out err, w') ->
  rc ≠ 0 ->
  is_ascii err = true ->
  ∃ text,
    list_byte_of_string text = err
    ∧ let o := item_done s w' [cloning_log region repo;
                               Run (clone_args region target repo);
                               error_log repo text] in
      for_each (repo :: l) (fetch_item region target) s
      = after (emitted o) (for_each l (fetch_item region target) (final o))
      ∧ error_logged (emitted o) = [error_log repo text]
      ∧ _processed_items (self (final o)) = _processed_items (self s) + 1.
Proof.
  intros Hm Hrun Hrc Hascii.
  exists (string_of_list_byte err).
  split; [apply list_byte_of_string_of_list_byte|].
  assert (Hdec : decode err = Ok (string_of_list_byte err)).
  { unfold decode. by rewrite utf8_valid_ascii. }
  cbv zeta. split; [|split].
  - exact (decodable_failure_is_passed region target repo l s rc out err _ w'
             Hm Hrun Hrc Hdec).
  - cbn [item_done emitted]. unfold error_logged. rewrite omap_app.
    unfold callback_events. by destruct (progress_callback _).
  - reflexivity.
Qed.
End Diagnostics.

Lemma ascii_diagnostics_are_logged_and_passed_witness :
  let s := Sim.start "/data" false Sim.repo2_denied in
  ∃ text,
    list_byte_of_string text
    = Sim.bytes_of "fatal: unable to access: The requested URL returned error: 403"
    ∧ error_logged (emitted (for_each ["Repo2"; "Repo3"]
                               (fetch_item "us-east-1" "/data") s))
      = [error_log "Repo2" text].
Proof.
  intros s.
  destruct (ascii_diagnostics_are_logged_and_passed "us-east-1" "/data" "Repo2" ["Repo3"] s
              128 [] (Sim.bytes_of "fatal: unable to access: The requested URL returned error: 403")
              (Sim.tick Sim.repo2_denied))
    as (text & Hbytes & Hloop & _); [vm_compute; reflexivity | reflexivity | lia | reflexivity|].
  exists text. split; [exact Hbytes|].
  rewrite Hloop.
  apply (f_equal string_of_list_byte) in Hbytes.
  rewrite string_of_list_byte_of_string in Hbytes. subst text.
  vm_compute. reflexivity.
Defined.

Section ParametersRead.
Context {W : Type} {os : OS W}.

(** X16: [fetch] reads no parameter other than [region] and
    [target_directory]: two runs from the same object and outside whose
    dictionaries agree on these two keys end the same way, emit the same
    events and leave the same outside and counters, whatever else the
    dictionaries hold. *)
Theorem only_region_and_target_directory_are_read (s : state W) (p' : gmap string string) :
  p' !! "region" = params (self s) !! "region" ->
  p' !! "target_directory" = params (self s) !! "target_directory" ->
  let o := fetch _get_repositories s in
  let o' := fetch _get_repositories (with_params p' s) in
  res o' = res o
  ∧ emitted o' = emitted o
  ∧ world (final o') = world (final o)
  ∧ self (final o') = set_params p' (self (final o)).
Proof.
  intros Hregion Htarget o o'. subst o o'.
  rewrite (fetch_with_params _get_repositories (fun _ _ => eq_refl) p' s).
  - generalize (fetch _get_repositories s). intros o.
    repeat split.
  - unfold region_of. cbn. by rewrite Hregion.
  - unfold target_directory_of. cbn. by rewrite Htarget.
Qed.
End ParametersRead.

Lemma only_region_and_target_directory_are_read_witness :
  let s := Sim.start "/data" true Sim.partly_synced in
  let p' := {[ "region" := "us-east-1"; "target_directory" := "/data";
               "profile" := "ci"; "branch" := "main" ]} : gmap string string in
  emitted (fetch _get_repositories (with_params p' s))
  = emitted (fetch _get_repositories s).
Proof.
  intros s p'.
  apply (only_region_and_target_directory_are_read s p'); reflexivity.
Defined.
